(** * cashu wallet core: a shallow embedding of [cashu/wallet/wallet.py]

    The wallet classes [LedgerAPI] and [Wallet] are embedded as functions of
    an explicit world (object heap, wallet attributes, proof store, event
    trace).  Python integers are [Z], Python strings are [string], lists are
    [list], the keyset dict is a [gmap]. *)

From Stdlib Require Import ZArith Ascii String List Sorted Lia.
From stdpp Require Import base tactics option list gmap strings pretty sorting.

Open Scope string_scope.
Open Scope list_scope.
Open Scope Z_scope.

(** ** Python string primitives used by the wallet *)

Module Py.

(** Binary digits of a positive number, most significant first. *)
Fixpoint bin_digits (p : positive) : string :=
  match p with
  | xH => "1"
  | xO q => bin_digits q +:+ "0"
  | xI q => bin_digits q +:+ "1"
  end.

(** [bin(n)]: the sign, the prefix [0b], the digits of the magnitude. *)
Definition bin (n : Z) : string :=
  match n with
  | Z0 => "0b0"
  | Zpos p => "0b" +:+ bin_digits p
  | Zneg p => "-0b" +:+ bin_digits p
  end.

(** [s[::-1]] *)
Definition reversed (s : string) : string :=
  string_of_list_ascii (rev (list_ascii_of_string s)).

(** [s[:-k]] for [k > 0]: everything but the last [k] characters. *)
Definition drop_last (k : nat) (s : string) : string :=
  let l := list_ascii_of_string s in
  string_of_list_ascii (take (length l - k) l).

(** [sum(l)] over integers. *)
Definition sum (l : list Z) : Z := fold_left Z.add l 0.

(** [range(n)]; empty for a non-positive bound. *)
Definition range (n : Z) : list nat := seq 0 (Z.to_nat n).

(** [s.split(sep)] for a non-empty separator: the pieces between the
    non-overlapping occurrences of [sep], scanned from the left.  [skip]
    counts the characters of a matched separator still to be consumed and
    [cur] is the piece being read, reversed. *)
Fixpoint split_go (sep : string) (skip : nat) (cur : list ascii) (s : string)
  : list string :=
  match s with
  | EmptyString => [string_of_list_ascii (rev cur)]
  | String c rest =>
      match skip with
      | S k => split_go sep k cur rest
      | O =>
          if String.prefix sep s
          then string_of_list_ascii (rev cur)
                 :: split_go sep (String.length sep - 1) [] rest
          else split_go sep 0 (c :: cur) rest
      end
  end.

Definition split (s sep : string) : list string := split_go sep 0 [] s.

(** [s[k:]] *)
Fixpoint drop_first (k : nat) (s : string) : string :=
  match k, s with
  | S k', String _ rest => drop_first k' rest
  | _, _ => s
  end.

End Py.

(** ** [LedgerAPI._get_output_split] *)

(** The loop [for (pos, bit) in enumerate(bits_amt)]: [pos] is the running
    index and [rv] the list built so far. *)
Fixpoint output_split_loop (pos : nat) (bits_amt : list ascii) (rv : list Z)
  : list Z :=
  match bits_amt with
  | [] => rv
  | bit :: rest =>
      output_split_loop (S pos) rest
        (if Ascii.eqb bit "1" then rv ++ [2 ^ Z.of_nat pos] else rv)
  end.

Definition _get_output_split (amount : Z) : list Z :=
  let bits_amt := Py.drop_last 2 (Py.reversed (Py.bin amount)) in
  output_split_loop 0 (list_ascii_of_string bits_amt) [].

(** Number of one bits of a non-negative integer. *)
Fixpoint popcount_pos (p : positive) : nat :=
  match p with
  | xH => 1
  | xO q => popcount_pos q
  | xI q => S (popcount_pos q)
  end.

Definition popcount (n : Z) : nat :=
  match n with
  | Zpos p => popcount_pos p
  | _ => 0
  end.

(** A power of two: [2 ^ i] for some position [i]. *)
Definition is_pow2 (x : Z) : Prop := ∃ i : nat, x = 2 ^ Z.of_nat i.

(** Modelled from the spec: [cashu.core.split.amount_split] is imported by the
    wallet but its module is not among the sources.  The spec (4.2) gives it
    as the binary decomposition, with the docstring example of
    [LedgerAPI._get_output_split] ([13] is [[1; 4; 8]]); it is given that
    function's body. *)
Definition amount_split (amount : Z) : list Z := _get_output_split amount.

(** ** Data model ([cashu.core.base]) *)

Record P2SHScript := mkP2SHScript {
  script : string;
  signature : string;
  address : option string;
}.

(** Modelled from the spec: the class [Proof] of [cashu.core.base] is not
    among the sources; spec section 3 gives its fields.  [reserved] and
    [send_id] are the wallet-local flags. *)
Record Proof := mkProof {
  amount : Z;
  secret : string;
  C : string;
  id : option string;
  p2sh : option P2SHScript;
  reserved : bool;
  send_id : option string;
}.

(** [Proof(amount=a, C=c, secret=s)]: the other fields take their defaults. *)
Definition new_Proof (a : Z) (c s : string) : Proof :=
  mkProof a s c None None false None.

Record BlindedMessage := mkBlindedMessage {
  bm_amount : Z;
  B_ : string;
}.

Record BlindedSignature := mkBlindedSignature {
  bs_amount : Z;
  C_ : string;
}.

(** ** Exceptions *)

Inductive Exn :=
| AssertionError (msg : string)
| Exception (msg : string)
| HTTPError
| JSONDecodeError
| KeyError (key : string)
| ValueError (msg : string)
| IndexError.

Inductive Result (A : Type) :=
| Ok (a : A)
| Raise (e : Exn).

Arguments Ok {A} a.
Arguments Raise {A} e.

(** ** The proof store ([cashu.wallet.crud]) *)

Module crud.

(** Modelled from the spec: the module [cashu.wallet.crud] is not among the
    sources; spec 4.5 gives the contract of each operation.  The store is
    the live set, keyed by [secret], and the history of invalidated
    secrets. *)
Record Store := mkStore {
  live : gmap string Proof;
  spent : gset string;
}.

Definition empty : Store := mkStore ∅ ∅.

(** Modelled from the spec: [store_proof(p)] inserts or upserts by
    [secret]. *)
Definition store_proof (p : Proof) (db : Store) : Store :=
  mkStore (<[secret p := p]> (live db)) (spent db).

(** Modelled from the spec: [get_proofs()] returns all non-invalidated
    proofs. *)
Definition get_proofs (db : Store) : list Proof :=
  (map_to_list (live db)).*2.

(** Modelled from the spec: [invalidate_proof(p)] removes [p] from the live
    set; afterwards [secret_used(p.secret)] is true. *)
Definition invalidate_proof (p : Proof) (db : Store) : Store :=
  mkStore (delete (secret p) (live db)) ({[secret p]} ∪ spent db).

(** Modelled from the spec: [secret_used(s)] is true if [s] is present in
    the live set or in the invalidated history. *)
Definition secret_used (s : string) (db : Store) : bool :=
  bool_decide (is_Some (live db !! s) ∨ s ∈ spent db).

(** Modelled from the spec: [update_proof_reserved(p, reserved, send_id)]
    sets the reserved flag and associates a send correlation id. *)
Definition update_proof_reserved (p : Proof) (flag : bool) (sid : string)
  (db : Store) : Store :=
  mkStore
    (alter (λ q, mkProof (amount q) (secret q) (C q) (id q) (p2sh q)
                   flag (Some sid))
       (secret p) (live db))
    (spent db).

End crud.

(** ** The mint's answers (spec section 6) *)

(** What [requests] hands back: a non-success status (on which
    [raise_for_status] raises), a body that is not JSON, or a JSON body. *)
Inductive Response (J : Type) :=
| StatusError
| NotJson
| Json (body : J).

Arguments StatusError {J}.
Arguments NotJson {J}.
Arguments Json {J} body.

(** [POST /mint]: a list of signatures or [{"error": msg}]. *)
Inductive MintJson :=
| MintError (msg : string)
| MintPromises (promises : list BlindedSignature).

(** [POST /split]: [{"fst": [...], "snd": [...]}] or [{"error": msg}]. *)
Inductive SplitJson :=
| SplitError (msg : string)
| SplitPromises (fst snd : list BlindedSignature).

(** [POST /check]: the items of [{"<index>": bool, ...}] in the order of the
    body, each key already read by [int(idx)]. *)
Definition CheckJson : Type := list (Z * bool).

(** [POST /melt]: [{"paid": bool, ...}]. *)
Record MeltJson := mkMeltJson { paid : bool }.

(** ** What the wallet imports and talks to

    The curve operations ([cashu.core.secp], [cashu.core.b_dhke]), the
    system's randomness and the mint are not part of the wallet: they are
    the parameters of the embedding.  Random draws are indexed by their
    rank. *)
Class Externals := {
  PublicKey : Type;
  PrivateKey : Type;
  (** [PublicKey(bytes.fromhex(h), raw=True)]; [None] when it raises. *)
  PublicKey_fromhex : string → option PublicKey;
  (** [K.serialize().hex()] *)
  serialize_hex : PublicKey → string;
  (** [b_dhke.step1_alice(secret)] at its [k]-th call: [(B_, r)]. *)
  step1_alice : string → nat → PublicKey * PrivateKey;
  (** [b_dhke.step3_alice(C_, r, K)] *)
  step3_alice : PublicKey → PrivateKey → PublicKey → PublicKey;
  (** [secrets.token_urlsafe(16)] at its [k]-th call. *)
  token_urlsafe : nat → string;
  (** [str(uuid.uuid1())] at its [k]-th call. *)
  uuid1 : nat → string;
  mint_post_mint : list BlindedMessage → option string → Response MintJson;
  mint_post_split :
    list Proof → Z → list BlindedMessage → Response SplitJson;
  mint_post_check : list Proof → Response CheckJson;
  mint_post_melt : list Proof → string → Response MeltJson;
}.

(** ** The world the wallet runs in *)

(** A [Proof] object is known by its address on the heap: the lists the
    wallet passes around hold references, so a mutation is seen through
    every alias. *)
Definition ref : Type := nat.

Inductive Event :=
| POST_mint (blinded_messages : list BlindedMessage)
    (payment_hash : option string)
| POST_split (proofs : list Proof) (amount : Z)
    (outputs : list BlindedMessage)
| POST_check (proofs : list Proof)
| POST_melt (proofs : list Proof) (invoice : string)
| DB_store_proof (p : Proof)
| DB_invalidate_proof (p : Proof)
| DB_update_proof_reserved (p : Proof) (flag : bool) (sid : string)
| SELF_proofs_assign (l : list ref)
| SELF_proofs_extend (l : list ref).

Section world.
Context `{Externals}.

Record World := mkWorld {
  heap : list Proof;
  self_proofs : list ref;
  self_keys : gmap Z PublicKey;
  self_db : crud.Store;
  trace : list Event;
  n_secrets : nat;
  n_blindings : nat;
  n_uuids : nat;
}.

(** The object behind a reference.  References are only made by [alloc],
    so the default is never read by a running wallet. *)
Definition deref (w : World) (p : ref) : Proof :=
  default (new_Proof 0 "" "") (heap w !! p).

(** Computations: a world transformer that returns or raises.  A raised
    exception keeps the effects made so far. *)
Definition M (A : Type) : Type := World → World * Result A.

Definition ret {A} (a : A) : M A := λ w, (w, Ok a).

Definition raise {A} (e : Exn) : M A := λ w, (w, Raise e).

Definition bind {A B} (c : M A) (k : A → M B) : M B :=
  λ w, match c w with
       | (w', Ok a) => k a w'
       | (w', Raise e) => (w', Raise e)
       end.

Definition get : M World := λ w, (w, Ok w).

Definition emit (e : Event) : M unit :=
  λ w, (mkWorld (heap w) (self_proofs w) (self_keys w) (self_db w)
          (trace w ++ [e]) (n_secrets w) (n_blindings w) (n_uuids w), Ok tt).

Definition alloc (p : Proof) : M ref :=
  λ w, (mkWorld (heap w ++ [p]) (self_proofs w) (self_keys w) (self_db w)
          (trace w) (n_secrets w) (n_blindings w) (n_uuids w),
        Ok (length (heap w))).

Definition store (p : ref) (v : Proof) : M unit :=
  λ w, (mkWorld (<[p := v]> (heap w)) (self_proofs w) (self_keys w)
          (self_db w) (trace w) (n_secrets w) (n_blindings w) (n_uuids w),
        Ok tt).

Definition set_self_proofs (l : list ref) : M unit :=
  λ w, (mkWorld (heap w) l (self_keys w) (self_db w) (trace w)
          (n_secrets w) (n_blindings w) (n_uuids w), Ok tt).

Definition set_self_db (db : crud.Store) : M unit :=
  λ w, (mkWorld (heap w) (self_proofs w) (self_keys w) db (trace w)
          (n_secrets w) (n_blindings w) (n_uuids w), Ok tt).

Definition draw_secret : M string :=
  λ w, (mkWorld (heap w) (self_proofs w) (self_keys w) (self_db w) (trace w)
          (S (n_secrets w)) (n_blindings w) (n_uuids w),
        Ok (token_urlsafe (n_secrets w))).

Definition draw_blinding (s : string) : M (PublicKey * PrivateKey) :=
  λ w, (mkWorld (heap w) (self_proofs w) (self_keys w) (self_db w) (trace w)
          (n_secrets w) (S (n_blindings w)) (n_uuids w),
        Ok (step1_alice s (n_blindings w))).

Definition draw_uuid : M string :=
  λ w, (mkWorld (heap w) (self_proofs w) (self_keys w) (self_db w) (trace w)
          (n_secrets w) (n_blindings w) (S (n_uuids w)),
        Ok (uuid1 (n_uuids w))).

(** [assert cond, msg] *)
Definition assert (cond : bool) (msg : string) : M unit :=
  if cond then ret tt else raise (AssertionError msg).

(** [for x in l: body(x)] *)
Fixpoint for_each {A} (body : A → M unit) (l : list A) : M unit :=
  match l with
  | [] => ret tt
  | x :: rest => bind (body x) (λ _, for_each body rest)
  end.

(** [[body(x) for x in l]] *)
Fixpoint for_list {A B} (body : A → M B) (l : list A) : M (list B) :=
  match l with
  | [] => ret []
  | x :: rest =>
      bind (body x) (λ y, bind (for_list body rest) (λ ys, ret (y :: ys)))
  end.

(** A loop that grows an accumulator. *)
Fixpoint for_acc {A S} (body : S → A → M S) (acc : S) (l : list A) : M S :=
  match l with
  | [] => ret acc
  | x :: rest => bind (body acc x) (λ acc', for_acc body acc' rest)
  end.

(** [l[i]] with Python's indexing: a negative index counts from the end. *)
Definition py_index {A} (l : list A) (i : Z) : option A :=
  if 0 <=? i then l !! Z.to_nat i
  else if - Z.of_nat (length l) <=? i
       then l !! Z.to_nat (Z.of_nat (length l) + i)
  else None.

(** [[p[field] for p in proofs]] *)
Definition amounts_of (w : World) (proofs : list ref) : list Z :=
  map (λ p, amount (deref w p)) proofs.

Definition secrets_of (w : World) (proofs : list ref) : list string :=
  map (λ p, secret (deref w p)) proofs.

(** The store operations, run on the wallet's database. *)
Definition db_store_proof (p : ref) : M unit :=
  bind get (λ w,
  bind (emit (DB_store_proof (deref w p))) (λ _,
  set_self_db (crud.store_proof (deref w p) (self_db w)))).

Definition db_invalidate_proof (p : ref) : M unit :=
  bind get (λ w,
  bind (emit (DB_invalidate_proof (deref w p))) (λ _,
  set_self_db (crud.invalidate_proof (deref w p) (self_db w)))).

Definition db_update_proof_reserved (p : ref) (flag : bool) (sid : string)
  : M unit :=
  bind get (λ w,
  bind (emit (DB_update_proof_reserved (deref w p) flag sid)) (λ _,
  set_self_db (crud.update_proof_reserved (deref w p) flag sid (self_db w)))).

Definition db_secret_used (s : string) : M bool :=
  λ w, (w, Ok (crud.secret_used s (self_db w))).

End world.

Notation "'let*' x ':=' c 'in' k" := (bind c (λ x, k))
  (at level 10, x pattern, c at level 100, k at level 200).
Notation "c ';;' k" := (bind c (λ _, k))
  (at level 100, k at level 200, right associativity).

(** ** [class LedgerAPI] *)

Module LedgerAPI.
Section api.
Context `{Externals}.

(** [_construct_proofs(promises, secrets, rs)]: one new [Proof] object per
    triple of the [zip]. *)
Definition _construct_proofs (promises : list BlindedSignature)
  (secrets : list string) (rs : list PrivateKey) : M (list ref) :=
  for_list
    (λ '(promise, secret, r),
       let* w := get in
       match PublicKey_fromhex (C_ promise) with
       | None => raise (ValueError "PublicKey")
       | Some C_ =>
           match self_keys w !! bs_amount promise with
           | None => raise (KeyError (pretty (bs_amount promise)))
           | Some K =>
               let C := step3_alice C_ r K in
               alloc (new_Proof (bs_amount promise) (serialize_hex C) secret)
           end
       end)
    (zip (zip promises secrets) rs).

(** [_generate_secret()] *)
Definition _generate_secret : M string := draw_secret.

(** [_construct_outputs(amounts, secrets)]: the payloads and the blinding
    factors [rs]. *)
Definition _construct_outputs (amounts : list Z) (secrets : list string)
  : M (list BlindedMessage * list PrivateKey) :=
  assert (bool_decide (length amounts = length secrets))
    "len(amounts) not equal to len(secrets)";;
  let* outs :=
    for_list
      (λ '(secret, amount),
         let* (B_, r) := draw_blinding secret in
         ret (mkBlindedMessage amount (serialize_hex B_), r))
      (zip secrets amounts) in
  ret (outs.*1, outs.*2).

(** [_check_used_secrets(secrets)] *)
Definition _check_used_secrets (secrets : list string) : M unit :=
  for_each
    (λ s,
       let* used := db_secret_used s in
       if used then raise (Exception ("secret already used: " +:+ s))
       else ret tt)
    secrets.

(** [generate_secrets(secret, n)] *)
Definition generate_secrets (secret : string) (n : Z) : M (list string) :=
  if bool_decide (length (Py.split secret "P2SH:") = 2%nat)
  then for_list
         (λ i, let* tail := _generate_secret in ret (secret +:+ ":" +:+ tail))
         (Py.range n)
  else ret (map (λ i : nat, pretty i +:+ ":" +:+ secret) (Py.range n)).

(** [mint(amounts, payment_hash)] *)
Definition mint (amounts : list Z) (payment_hash : option string)
  : M (list ref) :=
  let* secrets := for_list (λ _, _generate_secret)
                    (Py.range (Z.of_nat (length amounts))) in
  _check_used_secrets secrets;;
  let* (payloads, rs) := _construct_outputs amounts secrets in
  emit (POST_mint payloads payment_hash);;
  match mint_post_mint payloads payment_hash with
  | StatusError => raise HTTPError
  | NotJson => raise (Exception "Unkown mint error.")
  | Json (MintError msg) => raise (Exception ("Error: " +:+ msg))
  | Json (MintPromises promises) => _construct_proofs promises secrets rs
  end.

(** [split(proofs, amount, scnd_secret)] *)
Definition split (proofs : list ref) (amount : Z)
  (scnd_secret : option string) : M (list ref * list ref) :=
  let* w := get in
  let total := Py.sum (amounts_of w proofs) in
  let frst_amt := total - amount in
  let scnd_amt := amount in
  let frst_outputs := amount_split frst_amt in
  let scnd_outputs := amount_split scnd_amt in
  let amounts := frst_outputs ++ scnd_outputs in
  let* secrets :=
    match scnd_secret with
    | None =>
        for_list (λ _, _generate_secret)
          (Py.range (Z.of_nat (length amounts)))
    | Some scnd_secret =>
        let* scnd_secrets :=
          generate_secrets scnd_secret (Z.of_nat (length scnd_outputs)) in
        assert (bool_decide (length scnd_secrets = length scnd_outputs))
          "number of scnd_secrets does not match number of ouptus.";;
        let* frst_secrets :=
          for_list (λ _, _generate_secret)
            (Py.range (Z.of_nat (length frst_outputs))) in
        ret (frst_secrets ++ scnd_secrets)
    end in
  assert (bool_decide (length secrets = length amounts))
    "number of secrets does not match number of outputs";;
  _check_used_secrets secrets;;
  let* (payloads, rs) := _construct_outputs amounts secrets in
  let* w := get in
  emit (POST_split (map (deref w) proofs) amount payloads);;
  match mint_post_split (map (deref w) proofs) amount payloads with
  | StatusError => raise HTTPError
  | NotJson => raise (Exception "Unkown mint error.")
  | Json (SplitError msg) => raise (Exception ("Mint Error: " +:+ msg))
  | Json (SplitPromises promises_fst promises_snd) =>
      let* frst_proofs :=
        _construct_proofs promises_fst
          (take (length promises_fst) secrets)
          (take (length promises_fst) rs) in
      let* scnd_proofs :=
        _construct_proofs promises_snd
          (drop (length promises_fst) secrets)
          (drop (length promises_fst) rs) in
      ret (frst_proofs, scnd_proofs)
  end.

(** [check_spendable(proofs)] *)
Definition check_spendable (proofs : list ref) : M CheckJson :=
  let* w := get in
  emit (POST_check (map (deref w) proofs));;
  match mint_post_check (map (deref w) proofs) with
  | StatusError => raise HTTPError
  | NotJson => raise JSONDecodeError
  | Json return_dict => ret return_dict
  end.

(** [pay_lightning(proofs, invoice)] *)
Definition pay_lightning (proofs : list ref) (invoice : string)
  : M MeltJson :=
  let* w := get in
  emit (POST_melt (map (deref w) proofs) invoice);;
  match mint_post_melt (map (deref w) proofs) invoice with
  | StatusError => raise HTTPError
  | NotJson => raise JSONDecodeError
  | Json return_dict => ret return_dict
  end.

End api.
End LedgerAPI.

(** The order of [sorted(..., key=lambda p: p["amount"])]. *)
Definition amount_le (p q : Proof) : Prop := amount p ≤ amount q.

#[global] Instance amount_le_dec : RelDecision amount_le.
Proof. intros p q. unfold amount_le. apply _. Defined.

#[global] Instance amount_le_total : Total amount_le.
Proof. intros p q. unfold amount_le. lia. Qed.

(** ** [class Wallet(LedgerAPI)] *)

Module Wallet.
Section wallet.
Context `{Externals}.

(** [_store_proofs(proofs)] *)
Definition _store_proofs (proofs : list ref) : M unit :=
  for_each db_store_proof proofs.

(** [self.proofs += l] *)
Definition extend_self_proofs (l : list ref) : M unit :=
  let* w := get in
  emit (SELF_proofs_extend l);;
  set_self_proofs (self_proofs w ++ l).

(** [self.proofs = l] *)
Definition assign_self_proofs (l : list ref) : M unit :=
  emit (SELF_proofs_assign l);;
  set_self_proofs l.

(** [mint(amount, payment_hash)] *)
Definition mint (amount : Z) (payment_hash : option string)
  : M (list ref) :=
  let split := amount_split amount in
  let* proofs := LedgerAPI.mint split payment_hash in
  if bool_decide (proofs = []) then raise (Exception "received no proofs.")
  else
    _store_proofs proofs;;
    extend_self_proofs proofs;;
    ret proofs.

(** [split(proofs, amount, scnd_secret)] *)
Definition split (proofs : list ref) (amount : Z)
  (scnd_secret : option string) : M (list ref * list ref) :=
  assert (bool_decide (0 < length proofs)%nat) "no proofs provided.";;
  let* (frst_proofs, scnd_proofs) :=
    LedgerAPI.split proofs amount scnd_secret in
  if bool_decide (length frst_proofs = 0%nat)
     && bool_decide (length scnd_proofs = 0%nat)
  then raise (Exception "received no splits.")
  else
    let* w := get in
    let used_secrets := secrets_of w proofs in
    assign_self_proofs
      (filter (λ p, secret (deref w p) ∉ used_secrets) (self_proofs w));;
    extend_self_proofs (frst_proofs ++ scnd_proofs);;
    _store_proofs (frst_proofs ++ scnd_proofs);;
    for_each db_invalidate_proof proofs;;
    ret (frst_proofs, scnd_proofs).

(** [check_spendable(proofs)] *)
Definition check_spendable (proofs : list ref) : M CheckJson :=
  LedgerAPI.check_spendable proofs.

(** [invalidate(proofs)] *)
Definition invalidate (proofs : list ref) : M unit :=
  let* spendables := check_spendable proofs in
  let* invalidated_proofs :=
    for_acc
      (λ invalidated_proofs '(idx, spendable),
         if negb spendable then
           match py_index proofs idx with
           | None => raise IndexError
           | Some p =>
               db_invalidate_proof p;;
               ret (invalidated_proofs ++ [p])
           end
         else ret invalidated_proofs)
      [] spendables in
  let* w := get in
  let invalidate_secrets := secrets_of w invalidated_proofs in
  assign_self_proofs
    (filter (λ p, secret (deref w p) ∉ invalidate_secrets) (self_proofs w)).

(** [pay_lightning(proofs, invoice)] *)
Definition pay_lightning (proofs : list ref) (invoice : string) : M bool :=
  let* status := LedgerAPI.pay_lightning proofs invoice in
  (if paid status then invalidate proofs
   else raise (Exception "could not pay invoice."));;
  ret (paid status).

(** [split_to_send(proofs, amount, scnd_secret)] *)
Definition split_to_send (proofs : list ref) (amount : Z)
  (scnd_secret : option string) : M (list ref * list ref) :=
  let* w := get in
  if bool_decide
       (length (filter (λ p, reserved (deref w p) = false) proofs) ≤ 0)%nat
  then raise (Exception "balance too low.")
  else
    split (filter (λ p, reserved (deref w p) = false) proofs)
      amount scnd_secret.

(** [set_reserved(proofs, reserved)] *)
Definition set_reserved (proofs : list ref) (flag : bool) : M unit :=
  let* uuid_str := draw_uuid in
  for_each
    (λ proof,
       let* w := get in
       let q := deref w proof in
       store proof (mkProof (amount q) (secret q) (C q) (id q) (p2sh q)
                      true (send_id q));;
       db_update_proof_reserved proof flag uuid_str)
    proofs.

(** [balance] and [available_balance] *)
Definition balance (w : World) : Z :=
  Py.sum (amounts_of w (self_proofs w)).

Definition available_balance (w : World) : Z :=
  Py.sum (amounts_of w
            (filter (λ p, reserved (deref w p) = false) (self_proofs w))).

(** [load_proofs()]: the store hands back fresh objects. *)
Definition load_proofs : M unit :=
  let* w := get in
  let* proofs := for_list alloc (crud.get_proofs (self_db w)) in
  assign_self_proofs proofs.

(** [redeem(proofs, scnd_script, scnd_siganture)].  An argument is truthy
    when it is a non-empty string. *)
Definition redeem (proofs : list ref) (scnd_script : option string)
  (scnd_siganture : option string) : M (list ref * list ref) :=
  match scnd_script, scnd_siganture with
  | Some (String c1 s1), Some (String c2 s2) =>
      for_each
        (λ p,
           let* w := get in
           let q := deref w p in
           store p (mkProof (amount q) (secret q) (C q) (id q)
                      (Some (mkP2SHScript (String c1 s1) (String c2 s2) None))
                      (reserved q) (send_id q)))
        proofs
  | _, _ => ret tt
  end;;
  let* w := get in
  split proofs (Py.sum (amounts_of w proofs)) None.

(** [proof_amounts()]: [sorted] by amount; the amounts read off the result
    do not depend on how proofs of equal amount are ordered. *)
Definition proof_amounts (w : World) : list Z :=
  map amount
    (merge_sort amount_le (map (deref w) (self_proofs w))).

End wallet.
End Wallet.

(** ** Auxiliary definitions for the denomination split *)

(** The characters of [bin]'s digits, least significant first. *)
Fixpoint lsb_chars (p : positive) : list ascii :=
  match p with
  | xH => ["1"%char]
  | xO q => "0"%char :: lsb_chars q
  | xI q => "1"%char :: lsb_chars q
  end.

(** The powers of two of the one bits of [p], shifted by [k] positions. *)
Fixpoint pows (k : nat) (p : positive) : list Z :=
  match p with
  | xH => [2 ^ Z.of_nat k]
  | xO q => pows (S k) q
  | xI q => 2 ^ Z.of_nat k :: pows (S k) q
  end.

(** ** Auxiliary definitions: what the operations draw and submit *)

Section aux.
Context `{Externals}.

(** The world after [ks] more secrets and [kb] more blinding factors have
    been drawn. *)
Definition drawn (ks kb : nat) (w : World) : World :=
  mkWorld (heap w) (self_proofs w) (self_keys w) (self_db w) (trace w)
    (ks + n_secrets w) (kb + n_blindings w) (n_uuids w).

(** The world after the events [es]. *)
Definition logged (es : list Event) (w : World) : World :=
  mkWorld (heap w) (self_proofs w) (self_keys w) (self_db w) (trace w ++ es)
    (n_secrets w) (n_blindings w) (n_uuids w).

(** The world after the objects [ps] have been allocated. *)
Definition allocated (ps : list Proof) (w : World) : World :=
  mkWorld (heap w ++ ps) (self_proofs w) (self_keys w) (self_db w) (trace w)
    (n_secrets w) (n_blindings w) (n_uuids w).

(** The secrets drawn by [n] calls of [_generate_secret] from rank [k0]. *)
Definition fresh_secrets (k0 n : nat) : list string :=
  map token_urlsafe (seq k0 n).

Definition has_marker (secret : string) : bool :=
  bool_decide (length (Py.split secret "P2SH:") = 2%nat).

(** The first secret of [secrets] that the store has seen. *)
Definition first_used (db : crud.Store) (secrets : list string)
  : option string :=
  List.find (λ s, crud.secret_used s db) secrets.

(** The candidate secrets of a split, keep pile first. *)
Definition split_secrets (w : World) (proofs : list ref) (amt : Z)
  (scnd_secret : option string) : list string :=
  let total := Py.sum (amounts_of w proofs) in
  let nf := length (amount_split (total - amt)) in
  let ns := length (amount_split amt) in
  match scnd_secret with
  | None => fresh_secrets (n_secrets w) (nf + ns)
  | Some b =>
      if has_marker b
      then fresh_secrets (n_secrets w + ns) nf
           ++ map (λ t, b +:+ ":" +:+ t) (fresh_secrets (n_secrets w) ns)
      else fresh_secrets (n_secrets w) nf
           ++ map (λ i : nat, pretty i +:+ ":" +:+ b) (seq 0 ns)
  end.

(** How many secrets a split draws. *)
Definition split_draws (w : World) (proofs : list ref) (amt : Z)
  (scnd_secret : option string) : nat :=
  let total := Py.sum (amounts_of w proofs) in
  let nf := length (amount_split (total - amt)) in
  let ns := length (amount_split amt) in
  match scnd_secret with
  | None => nf + ns
  | Some b => if has_marker b then ns + nf else nf
  end.

(** The blinded outputs for [amounts] and [secrets], with their blinding
    factors, from blinding rank [k0]. *)
Fixpoint blind_outputs (k0 : nat) (secrets : list string) (amounts : list Z)
  : list (BlindedMessage * PrivateKey) :=
  match secrets, amounts with
  | s :: secrets', a :: amounts' =>
      (mkBlindedMessage a (serialize_hex (step1_alice s k0).1),
       (step1_alice s k0).2)
      :: blind_outputs (S k0) secrets' amounts'
  | _, _ => []
  end.

(** The outputs a split submits. *)
Definition split_outputs (w : World) (proofs : list ref) (amt : Z)
  (scnd_secret : option string) : list (BlindedMessage * PrivateKey) :=
  let total := Py.sum (amounts_of w proofs) in
  blind_outputs (n_blindings w) (split_secrets w proofs amt scnd_secret)
    (amount_split (total - amt) ++ amount_split amt).

(** The world in which a split posts its request, and the request. *)
Definition split_posted (w : World) (proofs : list ref) (amt : Z)
  (scnd_secret : option string) : World :=
  let total := Py.sum (amounts_of w proofs) in
  logged
    [POST_split (map (deref w) proofs) amt
       (split_outputs w proofs amt scnd_secret).*1]
    (drawn (split_draws w proofs amt scnd_secret)
       (length (amount_split (total - amt) ++ amount_split amt)) w).

(** The world after [self.proofs] has been set to [l]. *)
Definition with_self_proofs (l : list ref) (w : World) : World :=
  mkWorld (heap w) l (self_keys w) (self_db w) (trace w)
    (n_secrets w) (n_blindings w) (n_uuids w).

(** The world after the store operations [op] on the proofs [l], one event
    [ev] each. *)
Definition db_applied (op : Proof → crud.Store → crud.Store)
  (ev : Proof → Event) (l : list ref) (w : World) : World :=
  mkWorld (heap w) (self_proofs w) (self_keys w)
    (foldl (λ db p, op (deref w p) db) (self_db w) l)
    (trace w ++ map (λ p, ev (deref w p)) l)
    (n_secrets w) (n_blindings w) (n_uuids w).

Definition stored : list ref → World → World :=
  db_applied crud.store_proof DB_store_proof.

Definition invalidated : list ref → World → World :=
  db_applied crud.invalidate_proof DB_invalidate_proof.

(** The references of [l] whose secret is not among those of [gone]. *)
Definition kept_proofs (w : World) (gone l : list ref) : list ref :=
  filter (λ p, secret (deref w p) ∉ secrets_of w gone) l.

(** The world after [Wallet.split] has recorded the new piles [frst] and
    [scnd] for the inputs [proofs], from the world [w] the mint's answer
    was unblinded in. *)
Definition split_committed (proofs frst scnd : list ref) (w : World)
  : World :=
  invalidated proofs
    (stored (frst ++ scnd)
       (with_self_proofs
          (kept_proofs w proofs (self_proofs w) ++ frst ++ scnd)
          (logged [SELF_proofs_assign (kept_proofs w proofs (self_proofs w));
                   SELF_proofs_extend (frst ++ scnd)] w))).

(** The proof unblinded from one promise. *)
Definition unblind (keys : gmap Z PublicKey)
  (x : BlindedSignature * string * PrivateKey) : option Proof :=
  let '(promise, s, r) := x in
  match PublicKey_fromhex (C_ promise), keys !! bs_amount promise with
  | Some P, Some K =>
      Some (new_Proof (bs_amount promise) (serialize_hex (step3_alice P r K)) s)
  | _, _ => None
  end.

(** The mint's answer [fst], [snd] pairs positionally with the submitted
    outputs: [fst] signs the first [k] of them and [snd] the rest. *)
Definition positional (fst snd : list BlindedSignature)
  (outputs : list BlindedMessage) (k : nat) : Prop :=
  map bs_amount fst = take k (map bm_amount outputs)
  ∧ map bs_amount snd = drop k (map bm_amount outputs).

(** Some candidate secret is already known to the store. *)
Definition reused (w : World) (candidates : list string) : Prop :=
  ∃ s, s ∈ candidates ∧ crud.secret_used s (self_db w) = true.

(** The computation raises the secret-reuse error for a used candidate and
    leaves the trace, the store, the heap and [self.proofs] as they were. *)
Definition aborts_on_reuse {A} (c : M A) (candidates : list string)
  (w : World) : Prop :=
  ∃ s w', s ∈ candidates
          ∧ crud.secret_used s (self_db w) = true
          ∧ c w = (w', Raise (Exception ("secret already used: " +:+ s)))
          ∧ trace w' = trace w
          ∧ self_db w' = self_db w
          ∧ heap w' = heap w
          ∧ self_proofs w' = self_proofs w.

(** The proofs a [POST /check] answer reports as spent, in the order of the
    answer; [None] when an index is out of range. *)
Fixpoint reported_spent (proofs : list ref) (items : CheckJson)
  : option (list ref) :=
  match items with
  | [] => Some []
  | (idx, spendable) :: rest =>
      if spendable then reported_spent proofs rest
      else match py_index proofs idx, reported_spent proofs rest with
           | Some p, Some gone => Some (p :: gone)
           | _, _ => None
           end
  end.

(** The world after [Wallet.invalidate] has pruned the proofs [gone] that
    the mint's answer to the check of [proofs] reports as spent. *)
Definition reconciled (proofs gone : list ref) (w : World) : World :=
  let w1 := invalidated gone (logged [POST_check (map (deref w) proofs)] w) in
  with_self_proofs (kept_proofs w gone (self_proofs w))
    (logged [SELF_proofs_assign (kept_proofs w gone (self_proofs w))] w1).

(** The object [q] after [q.reserved = True]. *)
Definition mark_reserved (q : Proof) : Proof :=
  mkProof (amount q) (secret q) (C q) (id q) (p2sh q) true (send_id q).

(** One turn of the loop of [set_reserved] on the proof [p]. *)
Definition reserve_step (flag : bool) (sid : string) (w : World) (p : ref)
  : World :=
  let h := <[p := mark_reserved (deref w p)]> (heap w) in
  let q := default (new_Proof 0 "" "") (h !! p) in
  mkWorld h (self_proofs w) (self_keys w)
    (crud.update_proof_reserved q flag sid (self_db w))
    (trace w ++ [DB_update_proof_reserved q flag sid])
    (n_secrets w) (n_blindings w) (n_uuids w).

(** The world after a fresh uuid has been drawn. *)
Definition uuid_drawn (w : World) : World :=
  mkWorld (heap w) (self_proofs w) (self_keys w) (self_db w) (trace w)
    (n_secrets w) (n_blindings w) (S (n_uuids w)).

(** Every signature is a point and the keyset has a key for its amount. *)
Definition unblindable (keys : gmap Z PublicKey)
  (promises : list BlindedSignature) : Prop :=
  Forall (λ p, is_Some (PublicKey_fromhex (C_ p))
               ∧ is_Some (keys !! bs_amount p)) promises.

End aux.

(** ** A concrete mint and wallet for the examples

    Points are their hex strings and scalars are draw ranks.  The mint signs
    every output it is sent; it answers [POST /split] with an error when the
    amount is not between [0] and the total of the inputs, and otherwise
    with the first [|amount_split(total - amount)|] signatures as [fst] and
    the rest as [snd]; its answers to [POST /check] and [POST /melt] are
    parameters. *)
Definition demo_sign (outputs : list BlindedMessage) : list BlindedSignature :=
  map (λ o, mkBlindedSignature (bm_amount o) ("C_" +:+ B_ o)) outputs.

Definition demo (check : list Proof → Response CheckJson) (melt : bool)
  : Externals :=
  {| PublicKey := string;
     PrivateKey := nat;
     PublicKey_fromhex := λ h, Some h;
     serialize_hex := λ K, K;
     step1_alice := λ s k, ("B_" +:+ s, k);
     step3_alice := λ C_ r K, C_;
     token_urlsafe := λ k, "tok" +:+ pretty k;
     uuid1 := λ k, "uuid" +:+ pretty k;
     mint_post_mint := λ outs _, Json (MintPromises (demo_sign outs));
     mint_post_split := λ proofs amt outs,
       let total := Py.sum (map amount proofs) in
       let k := length (amount_split (total - amt)) in
       if (0 <=? amt) && (amt <=? total)
       then Json (SplitPromises (take k (demo_sign outs))
                    (drop k (demo_sign outs)))
       else Json (SplitError "split amount is higher than the total sum");
     mint_post_check := check;
     mint_post_melt := λ _ _, Json (mkMeltJson melt) |}.

(** The mint reports every checked proof as spent. *)
Definition all_spent (proofs : list Proof) : Response CheckJson :=
  Json (imap (λ i _, (Z.of_nat i, false)) proofs).

(** The mint reports every checked proof as still spendable. *)
Definition all_spendable (proofs : list Proof) : Response CheckJson :=
  Json (imap (λ i _, (Z.of_nat i, true)) proofs).

Definition demo_keys : gmap Z string :=
  list_to_map [(1, "K1"); (2, "K2"); (4, "K4"); (8, "K8"); (16, "K16")].

(** A wallet holding the proofs [heap], all of them in [self.proofs] and in
    the store. *)
Definition demo_world (E : Externals) (keys : gmap Z (@PublicKey E))
  (heap : list Proof) : @World E :=
  mkWorld heap (seq 0 (length heap)) keys
    (foldr crud.store_proof crud.empty heap) [] 0 0 0.

Definition demo_pile : list Proof :=
  [new_Proof 8 "c8" "s8"; new_Proof 4 "c4" "s4"; new_Proof 1 "c1" "s1"].

(** The demo mint that reports melted proofs as spent and pays invoices. *)
Definition honest : Externals := demo all_spent true.

(** A wallet on the honest mint holding proofs of [8], [4] and [1]. *)
Definition demo_wallet : @World honest := demo_world honest demo_keys demo_pile.

(** The same wallet, whose store has already seen the next secret the
    generator will propose. *)
Definition reuse_wallet : @World honest :=
  demo_world honest demo_keys (demo_pile ++ [new_Proof 2 "c2" "tok0"]).

(** A mint that pays the invoice but still reports the melted proofs as
    spendable. *)
Definition lagging : Externals := demo all_spendable true.

Definition lagging_wallet : @World lagging :=
  demo_world lagging demo_keys demo_pile.

(** A mint that pays the invoice and then answers the check with an index
    that no list of at most seven proofs has. *)
Definition confused : Externals :=
  demo (λ _, Json [(0, false); (7, false)]) true.

Definition confused_wallet : @World confused :=
  demo_world confused demo_keys demo_pile.

(** A mint that pays the invoice and then fails to answer the check. *)
Definition unreachable : Externals := demo (λ _, StatusError) true.

Definition unreachable_wallet : @World unreachable :=
  demo_world unreachable demo_keys demo_pile.

(** ** Auxiliary definitions for [redeem] and [set_reserved] *)

Section aux_more.
Context `{Externals}.

(** Python's truth value of an optional string argument. *)
Definition truthy (s : option string) : bool :=
  match s with
  | Some (String _ _) => true
  | _ => false
  end.

(** The object [q] after [q.script = sc]; the field [script] of a proof is
    [p2sh] here. *)
Definition attach_script (sc : P2SHScript) (q : Proof) : Proof :=
  mkProof (amount q) (secret q) (C q) (id q) (Some sc) (reserved q)
    (send_id q).

(** One turn of the loop of [redeem] on the proof [p]. *)
Definition lock_step (sc : P2SHScript) (w : World) (p : ref) : World :=
  mkWorld (<[p := attach_script sc (deref w p)]> (heap w)) (self_proofs w)
    (self_keys w) (self_db w) (trace w)
    (n_secrets w) (n_blindings w) (n_uuids w).

(** The world in which [redeem] calls [split]: the unlock script has been
    attached to [proofs] when both arguments are truthy, and nothing has
    happened otherwise. *)
Definition script_attached (a b : option string) (proofs : list ref)
  (w : World) : World :=
  if truthy a && truthy b
  then foldl (lock_step (mkP2SHScript (default "" a) (default "" b) None))
         w proofs
  else w.

(** What [update_proof_reserved] writes on a stored proof. *)
Definition persist_flag (flag : bool) (sid : string) (q : Proof) : Proof :=
  mkProof (amount q) (secret q) (C q) (id q) (p2sh q) flag (Some sid).

(** A store whose live proofs are filed under their own secret. *)
Definition well_keyed (db : crud.Store) : Prop :=
  map_Forall (λ s p, secret p = s) (crud.live db).

End aux_more.
(** * Properties *)

(** ** Sums, strings *)

Lemma sum_from (l : list Z) (a : Z) : fold_left Z.add l a = a + Py.sum l.
Proof.
  unfold Py.sum. revert a.
  induction l as [|x l IH]; intros a; simpl; [lia|].
  rewrite (IH (a + x)), (IH (0 + x)). lia.
Qed.

Lemma sum_nil : Py.sum [] = 0.
Proof. reflexivity. Qed.

Lemma sum_cons (x : Z) (l : list Z) : Py.sum (x :: l) = x + Py.sum l.
Proof. unfold Py.sum at 1. simpl. apply sum_from. Qed.

Lemma chars_app (s1 s2 : string) :
  list_ascii_of_string (s1 +:+ s2)
  = list_ascii_of_string s1 ++ list_ascii_of_string s2.
Proof. induction s1 as [|c s1 IH]; simpl; [done|]. by rewrite IH. Qed.

Lemma str_app_cons (x : ascii) (a b : string) :
  String x a +:+ b = String x (a +:+ b).
Proof. reflexivity. Qed.

Lemma str_app_assoc (a b c : string) : (a +:+ b) +:+ c = a +:+ b +:+ c.
Proof.
  induction a as [|x a IH]; [done|]. rewrite !str_app_cons. by f_equal.
Qed.

Lemma str_app_nil_r (a : string) : a +:+ "" = a.
Proof. induction a as [|x a IH]; [done|]. rewrite str_app_cons. by f_equal. Qed.

Lemma string_of_chars_app (l1 l2 : list ascii) :
  string_of_list_ascii (l1 ++ l2)
  = string_of_list_ascii l1 +:+ string_of_list_ascii l2.
Proof.
  induction l1 as [|x l1 IH]; simpl; [done|]. by rewrite str_app_cons, IH.
Qed.

(** ** [str.split]: the parts, joined by the separator, are the string *)

Lemma prefix_drop (sep s : string) :
  String.prefix sep s = true →
  s = sep +:+ Py.drop_first (String.length sep) s
  ∧ (String.length sep ≤ String.length s)%nat.
Proof.
  revert s. induction sep as [|c sep IH]; intros s Hp.
  - split; [by destruct s|simpl; lia].
  - destruct s as [|d s]; simpl in Hp; [done|].
    destruct (ascii_dec c d) as [->|]; [|done].
    destruct (IH s Hp) as [Heq Hlen]. simpl. rewrite str_app_cons.
    split; [by f_equal|lia].
Qed.

Lemma split_go_nonempty (sep : string) (k : nat) (cur : list ascii)
  (s : string) :
  Py.split_go sep k cur s ≠ [].
Proof.
  revert k cur. induction s as [|c s IH]; intros k cur; [done|].
  cbn [Py.split_go]. destruct k as [|k]; [|apply IH].
  destruct (String.prefix sep (String c s)); [done|apply IH].
Qed.

Lemma concat_cons (sep x : string) (rest : list string) :
  rest ≠ [] →
  String.concat sep (x :: rest) = x +:+ sep +:+ String.concat sep rest.
Proof. by destruct rest. Qed.

Lemma split_go_join (sep : string) (s : string) (k : nat) (cur : list ascii) :
  sep ≠ "" → (k ≤ String.length s)%nat →
  String.concat sep (Py.split_go sep k cur s)
  = string_of_list_ascii (rev cur) +:+ Py.drop_first k s.
Proof.
  intros Hsep. revert k cur.
  induction s as [|c s IH]; intros k cur Hk.
  - destruct k; [|simpl in Hk; lia]. simpl. by rewrite str_app_nil_r.
  - destruct k as [|k].
    + cbn [Py.split_go].
      destruct (String.prefix sep (String c s)) eqn:Hp.
      * apply prefix_drop in Hp as [Heq Hlen].
        destruct sep as [|d sep]; [done|]. simpl in Hlen.
        simpl String.length in *.
        replace (S (String.length sep) - 1)%nat with (String.length sep)
          by lia.
        rewrite concat_cons by apply split_go_nonempty.
        rewrite IH by lia.
        cbn [rev string_of_list_ascii Py.drop_first] in *.
        by rewrite Heq.
      * rewrite IH by (simpl; lia). simpl.
        by rewrite string_of_chars_app, str_app_assoc.
    + simpl. apply IH. simpl in Hk. lia.
Qed.

(** A string that splits in exactly two parts on a separator contains it. *)
Lemma split_two_parts (s sep : string) :
  sep ≠ "" → length (Py.split s sep) = 2%nat →
  ∃ pre post, Py.split s sep = [pre; post] ∧ s = pre +:+ sep +:+ post.
Proof.
  intros Hsep Hlen.
  pose proof (split_go_join sep s 0 [] Hsep ltac:(lia)) as Hjoin.
  fold (Py.split s sep) in Hjoin.
  destruct (Py.split s sep) as [|pre [|post [|]]]; try done.
  exists pre, post. split; [done|]. simpl in Hjoin. by rewrite Hjoin.
Qed.

(** ** The denomination split *)

Lemma bin_digits_chars (p : positive) :
  list_ascii_of_string (Py.bin_digits p) = rev (lsb_chars p).
Proof.
  induction p as [q IH|q IH|]; simpl; [| |done];
    by rewrite chars_app, IH.
Qed.

Lemma bits_amt_pos (p : positive) :
  list_ascii_of_string (Py.drop_last 2 (Py.reversed (Py.bin (Zpos p))))
  = lsb_chars p.
Proof.
  unfold Py.drop_last, Py.reversed, Py.bin.
  rewrite !list_ascii_of_string_of_list_ascii.
  rewrite chars_app, bin_digits_chars. simpl.
  rewrite rev_involutive, <- app_assoc, length_app. simpl.
  replace (length (lsb_chars p) + 2 - 2)%nat with (length (lsb_chars p)) by lia.
  by rewrite take_app_length.
Qed.

Lemma output_split_loop_pows (p : positive) (k : nat) (rv : list Z) :
  output_split_loop k (lsb_chars p) rv = rv ++ pows k p.
Proof.
  revert k rv. induction p as [q IH|q IH|]; intros k rv; simpl.
  - rewrite IH. by rewrite <- app_assoc.
  - by rewrite IH.
  - done.
Qed.

Lemma get_output_split_pos (p : positive) :
  _get_output_split (Zpos p) = pows 0 p.
Proof.
  unfold _get_output_split. cbv zeta.
  rewrite bits_amt_pos. apply output_split_loop_pows.
Qed.

Lemma pows_sum (p : positive) (k : nat) :
  Py.sum (pows k p) = 2 ^ Z.of_nat k * Zpos p.
Proof.
  revert k. induction p as [q IH|q IH|]; intros k; simpl pows.
  - rewrite sum_cons, IH, Nat2Z.inj_succ, Z.pow_succ_r by lia. lia.
  - rewrite IH, Nat2Z.inj_succ, Z.pow_succ_r by lia. lia.
  - rewrite sum_cons, sum_nil. lia.
Qed.

Lemma pows_length (p : positive) (k : nat) :
  length (pows k p) = popcount_pos p.
Proof.
  revert k. induction p as [q IH|q IH|]; intros k; simpl; auto.
Qed.

Lemma pows_elem (p : positive) (k : nat) (x : Z) :
  x ∈ pows k p ↔
  ∃ i : nat,
    x = 2 ^ Z.of_nat (k + i) ∧ Z.testbit (Zpos p) (Z.of_nat i) = true.
Proof.
  revert k. induction p as [q IH|q IH|]; intros k; simpl pows.
  - rewrite elem_of_cons, IH. split.
    + intros [->|(j & -> & Hj)].
      * exists 0%nat. by rewrite Nat.add_0_r.
      * exists (S j). split; [f_equal; lia|].
        rewrite Nat2Z.inj_succ, Pos2Z.inj_xI, Z.testbit_odd_succ by lia. done.
    + intros (i & -> & Hi). destruct i as [|j].
      * left. by rewrite Nat.add_0_r.
      * right. exists j. split; [f_equal; lia|].
        rewrite Nat2Z.inj_succ, Pos2Z.inj_xI, Z.testbit_odd_succ in Hi by lia.
        done.
  - rewrite IH. split.
    + intros (j & -> & Hj). exists (S j). split; [f_equal; lia|].
      rewrite Nat2Z.inj_succ, Pos2Z.inj_xO, Z.testbit_even_succ by lia. done.
    + intros (i & -> & Hi). destruct i as [|j].
      * by rewrite Pos2Z.inj_xO, Z.testbit_even_0 in Hi.
      * exists j. split; [f_equal; lia|].
        rewrite Nat2Z.inj_succ, Pos2Z.inj_xO, Z.testbit_even_succ in Hi by lia.
        done.
  - rewrite list_elem_of_singleton. split.
    + intros ->. exists 0%nat. by rewrite Nat.add_0_r.
    + intros (i & -> & Hi). destruct i as [|j]; [by rewrite Nat.add_0_r|].
      rewrite Nat2Z.inj_succ in Hi.
      change (Z.testbit 1 (Z.succ (Z.of_nat j))) with
        (Z.testbit (2 * 0 + 1) (Z.succ (Z.of_nat j))) in Hi.
      rewrite Z.testbit_odd_succ, Z.testbit_0_l in Hi by lia. done.
Qed.

Lemma pows_lower (p : positive) (k : nat) :
  Forall (λ x, 2 ^ Z.of_nat k ≤ x) (pows k p).
Proof.
  apply Forall_forall. intros x Hx.
  apply pows_elem in Hx as (i & -> & _).
  apply Z.pow_le_mono_r; lia.
Qed.

Lemma pows_sorted (p : positive) (k : nat) :
  StronglySorted Z.lt (pows k p).
Proof.
  revert k. induction p as [q IH|q IH|]; intros k; simpl pows.
  - constructor; [apply IH|].
    eapply Forall_impl; [apply (pows_lower q (S k))|].
    intros x Hx. simpl in Hx.
    assert (2 ^ Z.of_nat k < 2 ^ Z.of_nat (S k))
      by (apply Z.pow_lt_mono_r; lia).
    lia.
  - apply IH.
  - repeat constructor.
Qed.

Lemma pows_pow2 (p : positive) (k : nat) : Forall is_pow2 (pows k p).
Proof.
  apply Forall_forall. intros x Hx.
  apply pows_elem in Hx as (i & -> & _). by exists (k + i)%nat.
Qed.

Lemma get_output_split_0 : _get_output_split 0 = [].
Proof. reflexivity. Qed.

Lemma get_output_split_sum (n : Z) :
  0 ≤ n → Py.sum (_get_output_split n) = n.
Proof.
  intros Hn. destruct n as [|p|p]; [done| |lia].
  rewrite get_output_split_pos, pows_sum. simpl. lia.
Qed.

Lemma get_output_split_length (n : Z) :
  0 ≤ n → length (_get_output_split n) = popcount n.
Proof.
  intros Hn. destruct n as [|p|p]; [done| |lia].
  rewrite get_output_split_pos. apply pows_length.
Qed.

Lemma get_output_split_pow2 (n : Z) :
  0 ≤ n → Forall is_pow2 (_get_output_split n).
Proof.
  intros Hn. destruct n as [|p|p]; [constructor| |lia].
  rewrite get_output_split_pos. apply pows_pow2.
Qed.

(** C1: for every non-negative [n] the denomination split
    ([_get_output_split], and [amount_split] with it) sums to [n], is
    strictly ascending (so its elements are distinct), and holds exactly
    the powers of two [2 ^ i] of the one bits [i] of [n]; the split of [0]
    is empty and the split of [13] is [[1; 4; 8]]. *)
Theorem get_output_split_binary (n : Z) :
  0 ≤ n →
  amount_split n = _get_output_split n
  ∧ Py.sum (_get_output_split n) = n
  ∧ StronglySorted Z.lt (_get_output_split n)
  ∧ (∀ x, x ∈ _get_output_split n ↔
          ∃ i : nat, x = 2 ^ Z.of_nat i ∧ Z.testbit n (Z.of_nat i) = true)
  ∧ _get_output_split 0 = []
  ∧ _get_output_split 13 = [1; 4; 8].
Proof.
  intros Hn. split; [done|].
  split; [by apply get_output_split_sum|].
  split; [|split; [|done]].
  - destruct n as [|p|p]; [constructor| |lia].
    rewrite get_output_split_pos. apply pows_sorted.
  - intros x. destruct n as [|p|p]; [| |lia].
    + rewrite get_output_split_0. split; [by intros ?%elem_of_nil|].
      intros (i & _ & Hi). by rewrite Z.testbit_0_l in Hi.
    + rewrite get_output_split_pos, pows_elem. done.
Qed.

Lemma get_output_split_binary_witness :
  0 ≤ 13 ∧ Py.sum (_get_output_split 13) = 13.
Proof.
  split; [lia|]. apply (get_output_split_binary 13). lia.
Defined.

(** ** Running the monad *)

(** Two worlds built field by field are equal. *)
Ltac world_eq :=
  lazymatch goal with
  | |- @eq (@World _) _ _ =>
      unfold reconciled, split_committed, invalidated, stored, db_applied,
        with_self_proofs, drawn, logged, allocated; simpl;
      f_equal; first [lia | done | by rewrite <- ?app_assoc]
  end.

Ltac run_eq := unfold ret; simpl; f_equal; first [world_eq | done | idtac].

Section runs.
Context `{Externals}.

Lemma drawn_0 (w : World) : drawn 0 0 w = w.
Proof. destruct w. unfold drawn. simpl. f_equal; lia. Qed.

Lemma drawn_drawn (a b c d : nat) (w : World) :
  drawn a b (drawn c d w) = drawn (c + a) (d + b) w.
Proof. unfold drawn. simpl. f_equal; lia. Qed.

Lemma allocated_nil (w : World) : allocated [] w = w.
Proof. destruct w. unfold allocated. simpl. by rewrite app_nil_r. Qed.

Lemma range_of_nat (n : nat) : Py.range (Z.of_nat n) = seq 0 n.
Proof. unfold Py.range. by rewrite Nat2Z.id. Qed.

(** [n] calls of [_generate_secret] draw the next [n] secrets. *)
Lemma fresh_run {A} (l : list A) (w : World) :
  for_list (λ _, LedgerAPI._generate_secret) l w
  = (drawn (length l) 0 w, Ok (fresh_secrets (n_secrets w) (length l))).
Proof.
  revert w. induction l as [|x l IH]; intros w; simpl.
  - by rewrite drawn_0.
  - unfold bind at 1. simpl. unfold bind at 1. rewrite IH. run_eq.
Qed.

Lemma fresh_secrets_length (k0 n : nat) : length (fresh_secrets k0 n) = n.
Proof. unfold fresh_secrets. by rewrite length_map, length_seq. Qed.

(** The tails of a marked base are the next [n] secrets. *)
Lemma tails_run (b : string) (k : nat) (l : list nat) (w : World) :
  for_list
    (λ _ : nat, let* tail := LedgerAPI._generate_secret in
                ret (b +:+ ":" +:+ tail)) l w
  = (drawn (length l) 0 w,
     Ok (map (λ t, b +:+ ":" +:+ t) (fresh_secrets (n_secrets w) (length l)))).
Proof.
  revert w. induction l as [|x l IH]; intros w; simpl.
  - by rewrite drawn_0.
  - unfold bind at 1. simpl. unfold bind at 1. rewrite IH. run_eq.
Qed.

(** [generate_secrets] as a function of the draw rank. *)
Lemma generate_secrets_run (b : string) (n : nat) (w : World) :
  LedgerAPI.generate_secrets b (Z.of_nat n) w
  = if has_marker b
    then (drawn n 0 w,
          Ok (map (λ t, b +:+ ":" +:+ t) (fresh_secrets (n_secrets w) n)))
    else (w, Ok (map (λ i : nat, pretty i +:+ ":" +:+ b) (seq 0 n))).
Proof.
  unfold LedgerAPI.generate_secrets, has_marker. rewrite range_of_nat.
  case_bool_decide; [|done].
  by rewrite (tails_run b 0), length_seq.
Qed.

(** [_check_used_secrets] stops at the first used secret and changes
    nothing. *)
Lemma check_used_secrets_run (secrets : list string) (w : World) :
  LedgerAPI._check_used_secrets secrets w
  = (w, match first_used (self_db w) secrets with
        | Some s => Raise (Exception ("secret already used: " +:+ s))
        | None => Ok tt
        end).
Proof.
  unfold LedgerAPI._check_used_secrets, first_used.
  induction secrets as [|s l IH]; simpl; [done|].
  unfold bind at 1. unfold bind at 1. unfold db_secret_used at 1.
  destruct (crud.secret_used s (self_db w)); [done|].
  simpl. apply IH.
Qed.

Lemma blind_outputs_length (k0 : nat) (secrets : list string)
  (amounts : list Z) :
  length secrets = length amounts →
  length (blind_outputs k0 secrets amounts) = length amounts.
Proof.
  revert k0 amounts.
  induction secrets as [|s l IH]; intros k0 [|a amounts] Hl; simpl in *;
    try done.
  f_equal. apply IH. lia.
Qed.

Lemma blind_outputs_amounts (k0 : nat) (secrets : list string)
  (amounts : list Z) :
  length secrets = length amounts →
  map bm_amount (blind_outputs k0 secrets amounts).*1 = amounts.
Proof.
  revert k0 amounts.
  induction secrets as [|s l IH]; intros k0 [|a amounts] Hl; simpl in *;
    try done.
  f_equal. apply IH. lia.
Qed.

Lemma blind_loop_run (secrets : list string) (amounts : list Z) (w : World) :
  for_list
    (λ '(secret, amount),
       let* (B_, r) := draw_blinding secret in
       ret (mkBlindedMessage amount (serialize_hex B_), r))
    (zip secrets amounts) w
  = (drawn 0 (length (zip secrets amounts)) w,
     Ok (blind_outputs (n_blindings w) secrets amounts)).
Proof.
  revert amounts w.
  induction secrets as [|s l IH]; intros [|a amounts] w; simpl;
    try by rewrite drawn_0.
  unfold bind at 1. unfold bind at 1. simpl.
  destruct (step1_alice s (n_blindings w)) as [B r] eqn:HB. simpl.
  unfold bind at 1. rewrite IH. run_eq.
Qed.

(** [_construct_outputs] on lists of equal length. *)
Lemma construct_outputs_run (amounts : list Z) (secrets : list string)
  (w : World) :
  length secrets = length amounts →
  LedgerAPI._construct_outputs amounts secrets w
  = (drawn 0 (length amounts) w,
     Ok ((blind_outputs (n_blindings w) secrets amounts).*1,
         (blind_outputs (n_blindings w) secrets amounts).*2)).
Proof.
  intros Hl. unfold LedgerAPI._construct_outputs.
  rewrite bool_decide_eq_true_2 by done.
  unfold assert, bind at 1. simpl. unfold bind at 1.
  rewrite blind_loop_run. simpl.
  by rewrite length_zip, Hl, Nat.min_id.
Qed.

Lemma split_secrets_length (w : World) (proofs : list ref) (amt : Z)
  (scnd : option string) :
  length (split_secrets w proofs amt scnd)
  = length (amount_split (Py.sum (amounts_of w proofs) - amt)
            ++ amount_split amt).
Proof.
  unfold split_secrets. rewrite length_app.
  destruct scnd as [b|]; [destruct (has_marker b)|];
    rewrite ?length_app, ?length_map, ?fresh_secrets_length, ?length_seq;
    done.
Qed.

(** [LedgerAPI.split] up to the answer of the mint: the candidate secrets
    are drawn and checked, the outputs are blinded, the request is posted. *)
Lemma split_run (proofs : list ref) (amt : Z) (scnd : option string)
  (w : World) :
  LedgerAPI.split proofs amt scnd w
  = let secrets := split_secrets w proofs amt scnd in
    let outs := split_outputs w proofs amt scnd in
    match first_used (self_db w) secrets with
    | Some s =>
        (drawn (split_draws w proofs amt scnd) 0 w,
         Raise (Exception ("secret already used: " +:+ s)))
    | None =>
        let w2 := split_posted w proofs amt scnd in
        match mint_post_split (map (deref w) proofs) amt outs.*1 with
        | StatusError => (w2, Raise HTTPError)
        | NotJson => (w2, Raise (Exception "Unkown mint error."))
        | Json (SplitError msg) =>
            (w2, Raise (Exception ("Mint Error: " +:+ msg)))
        | Json (SplitPromises promises_fst promises_snd) =>
            (let* frst_proofs :=
               LedgerAPI._construct_proofs promises_fst
                 (take (length promises_fst) secrets)
                 (take (length promises_fst) outs.*2) in
             let* scnd_proofs :=
               LedgerAPI._construct_proofs promises_snd
                 (drop (length promises_fst) secrets)
                 (drop (length promises_fst) outs.*2) in
             ret (frst_proofs, scnd_proofs)) w2
        end
    end.
Proof.
  pose proof (split_secrets_length w proofs amt scnd) as Hlen.
  unfold LedgerAPI.split. unfold bind at 1. unfold get at 1. cbv zeta.
  set (total := Py.sum (amounts_of w proofs)) in *.
  set (fo := amount_split (total - amt)) in *.
  set (so := amount_split amt) in *.
  assert (Hsec :
    match scnd with
    | None =>
        for_list (λ _, LedgerAPI._generate_secret)
          (Py.range (Z.of_nat (length (fo ++ so))))
    | Some scnd_secret =>
        let* scnd_secrets :=
          LedgerAPI.generate_secrets scnd_secret (Z.of_nat (length so)) in
        assert (bool_decide (length scnd_secrets = length so))
          "number of scnd_secrets does not match number of ouptus.";;
        let* frst_secrets :=
          for_list (λ _, LedgerAPI._generate_secret)
            (Py.range (Z.of_nat (length fo))) in
        ret (frst_secrets ++ scnd_secrets)
    end w
    = (drawn (split_draws w proofs amt scnd) 0 w,
       Ok (split_secrets w proofs amt scnd))).
  { unfold split_secrets, split_draws. fold total. fold fo. fold so.
    destruct scnd as [b|].
    - unfold bind at 1. rewrite generate_secrets_run.
      destruct (has_marker b).
      + rewrite bool_decide_eq_true_2
          by (by rewrite length_map, fresh_secrets_length).
        unfold assert. unfold bind at 1, ret at 1. cbv iota beta.
        unfold bind at 1. rewrite fresh_run, range_of_nat, length_seq.
        run_eq. by rewrite (Nat.add_comm (length so)).
      + rewrite bool_decide_eq_true_2 by (by rewrite length_map, length_seq).
        unfold assert. unfold bind at 1, ret at 1. cbv iota beta.
        unfold bind at 1. rewrite fresh_run, range_of_nat, length_seq.
        run_eq.
    - rewrite fresh_run, range_of_nat, length_seq, length_app. done. }
  unfold bind at 1. rewrite Hsec. clear Hsec.
  set (secrets := split_secrets w proofs amt scnd) in *.
  rewrite bool_decide_eq_true_2 by done.
  unfold assert. unfold bind at 1, ret at 1. cbv iota beta.
  unfold bind at 1. rewrite check_used_secrets_run. simpl self_db.
  destruct (first_used (self_db w) secrets) as [s|]; [done|].
  unfold bind at 1. rewrite construct_outputs_run by done.
  unfold bind at 1, get at 1. unfold bind at 1, emit at 1.
  rewrite drawn_drawn, Nat.add_0_r.
  change (deref (drawn _ _ w)) with (deref w).
  change (n_blindings (drawn _ 0 w)) with (n_blindings w).
  unfold split_outputs, split_posted. fold total. fold fo. fold so.
  fold secrets.
  set (outs := blind_outputs (n_blindings w) secrets (fo ++ so)).
  set (w2 := mkWorld _ _ _ _ _ _ _ _).
  assert (w2 = logged [POST_split (map (deref w) proofs) amt outs.*1]
                 (drawn (split_draws w proofs amt scnd) (length (fo ++ so)) w))
    as -> by (subst w2; world_eq).
  by destruct (mint_post_split _ _ _) as [| |[msg|pf ps]].
Qed.

(** ** Unblinding *)

Lemma allocated_allocated (ps qs : list Proof) (w : World) :
  allocated qs (allocated ps w) = allocated (ps ++ qs) w.
Proof. world_eq. Qed.

Lemma bind_inv {A B} (c : M A) (k : A → M B) (w w' : World) (r : Result B) :
  bind c k w = (w', r) →
  (∃ w1 a, c w = (w1, Ok a) ∧ k a w1 = (w', r))
  ∨ (∃ e, c w = (w', Raise e) ∧ r = Raise e).
Proof.
  unfold bind. destruct (c w) as [w1 [a|e]]; intros Hk.
  - left. by exists w1, a.
  - right. exists e. by injection Hk as -> <-.
Qed.

(** The body of the loop of [_construct_proofs]. *)
Lemma unblind_step (promise : BlindedSignature) (s : string) (r : PrivateKey)
  (w : World) :
  (let* w0 := get in
   match PublicKey_fromhex (C_ promise) with
   | None => raise (ValueError "PublicKey")
   | Some C_ =>
       match self_keys w0 !! bs_amount promise with
       | None => raise (KeyError (pretty (bs_amount promise)))
       | Some K =>
           alloc (new_Proof (bs_amount promise)
                    (serialize_hex (step3_alice C_ r K)) s)
       end
   end) w
  = match unblind (self_keys w) (promise, s, r) with
    | Some p => (allocated [p] w, Ok (length (heap w)))
    | None =>
        (w, Raise (match PublicKey_fromhex (C_ promise) with
                   | None => ValueError "PublicKey"
                   | Some _ => KeyError (pretty (bs_amount promise))
                   end))
    end.
Proof.
  unfold bind, get, unblind.
  destruct (PublicKey_fromhex (C_ promise)) as [P|]; [|done].
  by destruct (self_keys w !! bs_amount promise) as [K|].
Qed.

(** [_construct_proofs] allocates one object per unblinded promise,
    whatever its outcome, and touches nothing else. *)
Lemma construct_proofs_inv (promises : list BlindedSignature)
  (secrets : list string) (rs : list PrivateKey) (w w' : World)
  (res : Result (list ref)) :
  LedgerAPI._construct_proofs promises secrets rs w = (w', res) →
  ∃ ps, w' = allocated ps w
        ∧ ∀ refs, res = Ok refs →
                  refs = seq (length (heap w)) (length ps)
                  ∧ Forall2 (λ x p, unblind (self_keys w) x = Some p)
                      (zip (zip promises secrets) rs) ps.
Proof.
  unfold LedgerAPI._construct_proofs.
  generalize (zip (zip promises secrets) rs). intros xs.
  revert w w' res.
  induction xs as [|[[promise s] r] xs IH]; intros w w' res Hrun;
    simpl in Hrun.
  - injection Hrun as <- <-. exists []. rewrite allocated_nil.
    split; [done|]. intros refs [= <-]. by split.
  - apply bind_inv in Hrun as [(w1 & a & Hstep & Hrest)|(e & Hstep & ->)];
      rewrite unblind_step in Hstep;
      destruct (unblind (self_keys w) (promise, s, r)) as [p|] eqn:Hp;
      try discriminate.
    + injection Hstep as <- <-.
      apply bind_inv in Hrest as [(w2 & refs & Hxs & Hret)|(e & Hxs & ->)].
      * injection Hret as <- <-.
        apply IH in Hxs as (ps & -> & Hok).
        exists (p :: ps). rewrite allocated_allocated. split; [done|].
        intros ? [= <-]. destruct (Hok refs eq_refl) as [-> HF]. split.
        -- simpl. rewrite length_app. simpl. by rewrite Nat.add_1_r.
        -- by constructor.
      * apply IH in Hxs as (ps & -> & _).
        exists (p :: ps). by rewrite allocated_allocated.
    + injection Hstep as <- _. exists []. by rewrite allocated_nil.
Qed.

(** When every promise unblinds, [_construct_proofs] returns the references
    of the new objects. *)
Lemma construct_proofs_ok (promises : list BlindedSignature)
  (secrets : list string) (rs : list PrivateKey) (ps : list Proof)
  (w : World) :
  Forall2 (λ x p, unblind (self_keys w) x = Some p)
    (zip (zip promises secrets) rs) ps →
  LedgerAPI._construct_proofs promises secrets rs w
  = (allocated ps w, Ok (seq (length (heap w)) (length ps))).
Proof.
  unfold LedgerAPI._construct_proofs.
  generalize (zip (zip promises secrets) rs). intros xs HF. revert ps w HF.
  induction xs as [|[[promise s] r] xs IH]; intros ps w HF.
  - apply Forall2_nil_inv_l in HF as ->. by rewrite allocated_nil.
  - apply Forall2_cons_inv_l in HF as (p & ps' & Hp & HF & ->).
    simpl for_list. unfold bind at 1. rewrite unblind_step, Hp.
    unfold bind at 1.
    rewrite (IH ps' (allocated [p] w)) by exact HF.
    unfold ret. rewrite allocated_allocated. simpl.
    rewrite length_app. simpl. by rewrite Nat.add_1_r.
Qed.

(** Promises that are points with a key in the keyset unblind, to proofs
    of the promised amounts under the paired secrets. *)
Lemma unblind_all (keys : gmap Z PublicKey) (promises : list BlindedSignature)
  (secrets : list string) (rs : list PrivateKey) :
  unblindable keys promises →
  length secrets = length promises →
  length rs = length promises →
  ∃ ps, Forall2 (λ x p, unblind keys x = Some p)
          (zip (zip promises secrets) rs) ps
        ∧ map amount ps = map bs_amount promises
        ∧ map secret ps = secrets.
Proof.
  intros Hu. revert secrets rs.
  induction Hu as [|promise promises [[P HP] [K HK]] Hu IH];
    intros [|s secrets] [|r rs] Hs Hr; simpl in *; try done.
  - by exists [].
  - destruct (IH secrets rs) as (ps & HF & Ha & Hsec); [lia|lia|].
    exists (new_Proof (bs_amount promise) (serialize_hex (step3_alice P r K)) s
            :: ps).
    split; [|by simpl; rewrite Ha, Hsec].
    constructor; [|done]. unfold unblind. by rewrite HP, HK.
Qed.

(** ** Store loops and [Wallet.split] *)

Lemma db_loop_run (op : Proof → crud.Store → crud.Store)
  (ev : Proof → Event) (l : list ref) (w : World) :
  for_each
    (λ p, let* w0 := get in
          emit (ev (deref w0 p));;
          set_self_db (op (deref w0 p) (self_db w0))) l w
  = (db_applied op ev l w, Ok tt).
Proof.
  revert w. induction l as [|p l IH]; intros w; simpl.
  - unfold ret. f_equal. destruct w. unfold db_applied. simpl.
    by rewrite app_nil_r.
  - unfold bind at 1. unfold bind at 1, get at 1.
    unfold bind at 1, emit at 1, set_self_db at 1.
    rewrite IH. f_equal. unfold db_applied, deref. simpl.
    f_equal. by rewrite <- app_assoc.
Qed.

Lemma store_proofs_run (l : list ref) (w : World) :
  Wallet._store_proofs l w = (stored l w, Ok tt).
Proof. apply db_loop_run. Qed.

Lemma invalidate_loop_run (l : list ref) (w : World) :
  for_each db_invalidate_proof l w = (invalidated l w, Ok tt).
Proof. apply db_loop_run. Qed.

(** [Wallet.split] around [LedgerAPI.split]. *)
Lemma wallet_split_run (proofs : list ref) (amt : Z) (scnd : option string)
  (w : World) :
  Wallet.split proofs amt scnd w
  = match proofs with
    | [] => (w, Raise (AssertionError "no proofs provided."))
    | _ :: _ =>
        match LedgerAPI.split proofs amt scnd w with
        | (w1, Raise e) => (w1, Raise e)
        | (w1, Ok (frst_proofs, scnd_proofs)) =>
            match frst_proofs, scnd_proofs with
            | [], [] => (w1, Raise (Exception "received no splits."))
            | _, _ =>
                (split_committed proofs frst_proofs scnd_proofs w1,
                 Ok (frst_proofs, scnd_proofs))
            end
        end
    end.
Proof.
  unfold Wallet.split. destruct proofs as [|p proofs]; [done|].
  rewrite bool_decide_eq_true_2 by (simpl; lia).
  unfold assert. unfold bind at 1, ret at 1. cbv iota beta.
  unfold bind at 1.
  destruct (LedgerAPI.split (p :: proofs) amt scnd w)
    as [w1 [[frst sc]|e]]; [|done].
  assert (bool_decide (length frst = 0%nat) && bool_decide (length sc = 0%nat)
          = match frst, sc with [], [] => true | _, _ => false end) as ->.
  { by destruct frst, sc. }
  assert (∀ X Y : World * Result (list ref * list ref),
    match frst, sc with [], [] => X | _, _ => Y end
    = if match frst, sc with [], [] => true | _, _ => false end
      then X else Y) as -> by (by destruct frst, sc).
  destruct (match frst, sc with [], [] => true | _, _ => false end); [done|].
  unfold bind at 1, get at 1.
  unfold Wallet.assign_self_proofs, Wallet.extend_self_proofs.
  unfold bind at 1. unfold bind at 1, emit at 1, set_self_proofs at 1.
  unfold bind at 1. unfold bind at 1, get at 1.
  unfold bind at 1, emit at 1, set_self_proofs at 1.
  unfold bind at 1. rewrite store_proofs_run.
  unfold bind at 1. rewrite invalidate_loop_run.
  unfold ret. f_equal. unfold kept_proofs. world_eq.
Qed.

(** ** The outcome of [LedgerAPI.split] *)

Lemma first_used_None (db : crud.Store) (secrets : list string) :
  first_used db secrets = None ↔
  Forall (λ s, crud.secret_used s db = false) secrets.
Proof.
  unfold first_used. induction secrets as [|s l IH]; simpl.
  - split; [constructor|done].
  - destruct (crud.secret_used s db) eqn:Hs.
    + split; [done|]. intros HF. inversion HF; congruence.
    + rewrite IH. split; [by constructor|]. intros HF. by inversion HF.
Qed.

Lemma first_used_Some (db : crud.Store) (secrets : list string)
  (s : string) :
  first_used db secrets = Some s →
  s ∈ secrets ∧ crud.secret_used s db = true.
Proof.
  unfold first_used. intros Hf. apply find_some in Hf as [Hin Hu].
  by rewrite list_elem_of_In.
Qed.

Lemma first_used_is_Some (db : crud.Store) (secrets : list string)
  (s : string) :
  s ∈ secrets → crud.secret_used s db = true →
  is_Some (first_used db secrets).
Proof.
  intros Hin Hu. destruct (first_used db secrets) eqn:Hf; [done|].
  apply first_used_None in Hf. rewrite Forall_forall in Hf.
  specialize (Hf s Hin). congruence.
Qed.

(** Whatever the outcome, [LedgerAPI.split] writes nothing but new objects
    and, at most, its one request. *)
Lemma ledger_split_inv (proofs : list ref) (amt : Z) (scnd : option string)
  (w w' : World) (res : Result (list ref * list ref)) :
  LedgerAPI.split proofs amt scnd w = (w', res) →
  (w' = drawn (split_draws w proofs amt scnd) 0 w
   ∧ ∃ s, res = Raise (Exception ("secret already used: " +:+ s))
          ∧ s ∈ split_secrets w proofs amt scnd
          ∧ crud.secret_used s (self_db w) = true)
  ∨ (first_used (self_db w) (split_secrets w proofs amt scnd) = None
     ∧ ∃ ps, w' = allocated ps (split_posted w proofs amt scnd)).
Proof.
  rewrite split_run. cbv zeta.
  destruct (first_used _ _) as [s|] eqn:Hused.
  - intros [= <- <-]. left. split; [done|]. exists s.
    apply first_used_Some in Hused as [? ?]. done.
  - intros Hrun. right. split; [done|].
    destruct (mint_post_split _ _ _) as [| |[msg|pf ps]];
      try (injection Hrun as <- <-; exists []; by rewrite allocated_nil).
    apply bind_inv in Hrun as [(w1 & a & H1 & Hrest)|(e & H1 & ->)].
    + apply construct_proofs_inv in H1 as (ps1 & -> & _).
      apply bind_inv in Hrest as [(w2 & b & H2 & Hret)|(e & H2 & ->)].
      * apply construct_proofs_inv in H2 as (ps2 & -> & _).
        injection Hret as <- <-. exists (ps1 ++ ps2).
        by rewrite allocated_allocated.
      * apply construct_proofs_inv in H2 as (ps2 & -> & _).
        exists (ps1 ++ ps2). by rewrite allocated_allocated.
    + apply construct_proofs_inv in H1 as (ps1 & -> & _). by exists ps1.
Qed.

Lemma split_outputs_amounts (w : World) (proofs : list ref) (amt : Z)
  (scnd : option string) :
  map bm_amount (split_outputs w proofs amt scnd).*1
  = amount_split (Py.sum (amounts_of w proofs) - amt) ++ amount_split amt.
Proof.
  unfold split_outputs. cbv zeta.
  apply blind_outputs_amounts, split_secrets_length.
Qed.

Lemma split_outputs_length (w : World) (proofs : list ref) (amt : Z)
  (scnd : option string) :
  length (split_outputs w proofs amt scnd)
  = length (amount_split (Py.sum (amounts_of w proofs) - amt)
            ++ amount_split amt).
Proof.
  unfold split_outputs. cbv zeta.
  apply blind_outputs_length, split_secrets_length.
Qed.

(** The new objects, read back through their references. *)
Lemma deref_allocated (pre ps post : list Proof) (w : World) :
  map (deref (allocated (pre ++ ps ++ post) w))
    (seq (length (heap w) + length pre) (length ps)) = ps.
Proof.
  unfold deref, allocated. simpl. rewrite app_assoc.
  rewrite <- length_app. generalize (heap w ++ pre). clear pre.
  intros pre. revert pre.
  induction ps as [|p ps IH]; intros pre; simpl; [done|].
  rewrite list_lookup_middle by done. simpl. f_equal.
  specialize (IH (pre ++ [p])).
  rewrite length_app, Nat.add_1_r, <- app_assoc in IH. apply IH.
Qed.

(** With unused candidate secrets and an answer
    of the mint that pairs positionally with the outputs, the call returns
    the references of a keep pile and a send pile of the split amounts,
    under the candidate secrets in order. *)
Lemma ledger_split_ok (proofs : list ref) (amt : Z) (scnd : option string)
  (w : World) (fst snd : list BlindedSignature) :
  let total := Py.sum (amounts_of w proofs) in
  first_used (self_db w) (split_secrets w proofs amt scnd) = None →
  mint_post_split (map (deref w) proofs) amt
    (split_outputs w proofs amt scnd).*1 = Json (SplitPromises fst snd) →
  positional fst snd (split_outputs w proofs amt scnd).*1
    (length (amount_split (total - amt))) →
  unblindable (self_keys w) (fst ++ snd) →
  ∃ pk ps,
    LedgerAPI.split proofs amt scnd w
    = (allocated (pk ++ ps) (split_posted w proofs amt scnd),
       Ok (seq (length (heap w)) (length pk),
           seq (length (heap w) + length pk) (length ps)))
    ∧ map amount pk = amount_split (total - amt)
    ∧ map amount ps = amount_split amt
    ∧ map secret (pk ++ ps) = split_secrets w proofs amt scnd.
Proof.
  intros total Hunused Hmint [Hfst Hsnd] Hub.
  rewrite split_outputs_amounts in Hfst, Hsnd. fold total in Hfst, Hsnd.
  rewrite take_app_length in Hfst. rewrite drop_app_length in Hsnd.
  pose proof (split_secrets_length w proofs amt scnd) as Hsl.
  pose proof (split_outputs_length w proofs amt scnd) as Hol.
  fold total in Hsl, Hol. rewrite length_app in Hsl, Hol.
  assert (length fst = length (amount_split (total - amt))) as Hlf
    by (by rewrite <- Hfst, length_map).
  assert (length snd = length (amount_split amt)) as Hls
    by (by rewrite <- Hsnd, length_map).
  apply Forall_app in Hub as [Hub1 Hub2].
  set (secrets := split_secrets w proofs amt scnd) in *.
  set (outs := split_outputs w proofs amt scnd) in *.
  destruct (unblind_all (self_keys w) fst (take (length fst) secrets)
              (take (length fst) outs.*2)) as (pk & HF1 & Ha1 & Hs1);
    [done| | |].
  { rewrite length_take. lia. }
  { rewrite length_take, length_fmap. lia. }
  destruct (unblind_all (self_keys w) snd (drop (length fst) secrets)
              (drop (length fst) outs.*2)) as (ps & HF2 & Ha2 & Hs2);
    [done| | |].
  { rewrite length_drop. lia. }
  { rewrite length_drop, length_fmap. lia. }
  exists pk, ps. rewrite split_run. cbv zeta.
  fold secrets. fold outs. rewrite Hunused, Hmint.
  unfold bind at 1. erewrite construct_proofs_ok by exact HF1.
  unfold bind at 1. erewrite construct_proofs_ok by exact HF2.
  unfold ret. rewrite allocated_allocated. simpl.
  rewrite length_app. split; [done|].
  split; [by rewrite Ha1|]. split; [by rewrite Ha2|].
  by rewrite map_app, Hs1, Hs2, take_drop.
Qed.

(** [LedgerAPI.mint] up to the answer of the mint. *)
Lemma mint_run (amounts : list Z) (payment_hash : option string) (w : World) :
  LedgerAPI.mint amounts payment_hash w
  = let secrets := fresh_secrets (n_secrets w) (length amounts) in
    let outs := blind_outputs (n_blindings w) secrets amounts in
    match first_used (self_db w) secrets with
    | Some s =>
        (drawn (length amounts) 0 w,
         Raise (Exception ("secret already used: " +:+ s)))
    | None =>
        let w2 := logged [POST_mint outs.*1 payment_hash]
                    (drawn (length amounts) (length amounts) w) in
        match mint_post_mint outs.*1 payment_hash with
        | StatusError => (w2, Raise HTTPError)
        | NotJson => (w2, Raise (Exception "Unkown mint error."))
        | Json (MintError msg) => (w2, Raise (Exception ("Error: " +:+ msg)))
        | Json (MintPromises promises) =>
            LedgerAPI._construct_proofs promises secrets outs.*2 w2
        end
    end.
Proof.
  unfold LedgerAPI.mint. cbv zeta.
  unfold bind at 1. rewrite fresh_run, range_of_nat, length_seq.
  unfold bind at 1. rewrite check_used_secrets_run.
  change (self_db (drawn _ _ w)) with (self_db w).
  destruct (first_used _ _) as [s|]; [done|].
  unfold bind at 1.
  rewrite construct_outputs_run by apply fresh_secrets_length.
  unfold bind at 1, emit at 1.
  rewrite drawn_drawn, Nat.add_0_r.
  change (n_blindings (drawn _ 0 w)) with (n_blindings w).
  set (outs := blind_outputs _ _ _).
  set (w2 := mkWorld _ _ _ _ _ _ _ _).
  assert (w2 = logged [POST_mint outs.*1 payment_hash]
                 (drawn (length amounts) (length amounts) w))
    as -> by (subst w2; world_eq).
  by destruct (mint_post_mint _ _) as [| |[msg|promises]].
Qed.

(** [Wallet.mint] around [LedgerAPI.mint]. *)
Lemma wallet_mint_run (amt : Z) (payment_hash : option string) (w : World) :
  Wallet.mint amt payment_hash w
  = match LedgerAPI.mint (amount_split amt) payment_hash w with
    | (w1, Raise e) => (w1, Raise e)
    | (w1, Ok []) => (w1, Raise (Exception "received no proofs."))
    | (w1, Ok proofs) =>
        (with_self_proofs (self_proofs w1 ++ proofs)
           (logged [SELF_proofs_extend proofs] (stored proofs w1)),
         Ok proofs)
    end.
Proof.
  unfold Wallet.mint. cbv zeta. unfold bind at 1.
  destruct (LedgerAPI.mint _ _ w) as [w1 [proofs|e]]; [|done].
  destruct proofs as [|p proofs]; [done|].
  rewrite bool_decide_eq_false_2 by done.
  unfold bind at 1. rewrite store_proofs_run.
  unfold Wallet.extend_self_proofs.
  unfold bind at 1. unfold bind at 1, get at 1.
  unfold bind at 1, emit at 1, set_self_proofs at 1. done.
Qed.

End runs.

(** * Properties of the wallet operations *)

Section wallet_properties.
Context `{Externals}.

(** C10: [Wallet.split] on an empty list of proofs raises, for every amount
    and every second secret, and leaves the world untouched: no request is
    posted and nothing is written to the store. *)
Theorem wallet_split_empty (amt : Z) (scnd : option string) (w : World) :
  Wallet.split [] amt scnd w
  = (w, Raise (AssertionError "no proofs provided.")).
Proof. by rewrite wallet_split_run. Qed.

(** C3, amended: [LedgerAPI.split] has no range check.  For every pile and
    every amount, in range or not, when no candidate secret is used the
    call posts its request, with outputs for
    [amount_split(total - amount) ++ amount_split(amount)]; whether the
    amount is acceptable is left to the mint. *)
Theorem ledger_split_posts (proofs : list ref) (amt : Z)
  (scnd : option string) (w : World) :
  Forall (λ s, crud.secret_used s (self_db w) = false)
    (split_secrets w proofs amt scnd) →
  ∃ w' res outputs,
    LedgerAPI.split proofs amt scnd w = (w', res)
    ∧ trace w' = trace w ++ [POST_split (map (deref w) proofs) amt outputs]
    ∧ map bm_amount outputs
      = amount_split (Py.sum (amounts_of w proofs) - amt) ++ amount_split amt.
Proof.
  intros Hfresh. apply first_used_None in Hfresh.
  destruct (LedgerAPI.split proofs amt scnd w) as [w' res] eqn:Hrun.
  exists w', res, (split_outputs w proofs amt scnd).*1.
  split; [done|].
  apply ledger_split_inv in Hrun as [[_ (s & _ & Hin & Hs)]|[_ [ps ->]]].
  - rewrite first_used_None, Forall_forall in Hfresh.
    specialize (Hfresh s Hin). congruence.
  - split; [done|]. apply split_outputs_amounts.
Qed.

(** C4: in [mint] and in [split], of [LedgerAPI] and of [Wallet] alike,
    when some candidate secret is known to the store the operation raises
    the secret-reuse error for such a secret, with the trace (so no request
    posted), the store, the heap and [self.proofs] unchanged; and an
    operation that did post a request had found every candidate unused. *)
Theorem used_secret_aborts (w : World) (amounts : list Z)
  (payment_hash : option string) (mint_amount : Z) (proofs : list ref)
  (amt : Z) (scnd : option string) :
  let mint_candidates n := fresh_secrets (n_secrets w) n in
  let split_candidates := split_secrets w proofs amt scnd in
  (reused w (mint_candidates (length amounts)) →
   aborts_on_reuse (LedgerAPI.mint amounts payment_hash)
     (mint_candidates (length amounts)) w)
  ∧ (reused w (mint_candidates (length (amount_split mint_amount))) →
     aborts_on_reuse (Wallet.mint mint_amount payment_hash)
       (mint_candidates (length (amount_split mint_amount))) w)
  ∧ (reused w split_candidates →
     aborts_on_reuse (LedgerAPI.split proofs amt scnd) split_candidates w)
  ∧ (proofs ≠ [] → reused w split_candidates →
     aborts_on_reuse (Wallet.split proofs amt scnd) split_candidates w)
  ∧ (trace (LedgerAPI.mint amounts payment_hash w).1 ≠ trace w →
     Forall (λ s, crud.secret_used s (self_db w) = false)
       (mint_candidates (length amounts)))
  ∧ (trace (LedgerAPI.split proofs amt scnd w).1 ≠ trace w →
     Forall (λ s, crud.secret_used s (self_db w) = false) split_candidates).
Proof.
  intros mint_candidates split_candidates.
  assert (Hmint : ∀ l, reused w (mint_candidates (length l)) →
            aborts_on_reuse (LedgerAPI.mint l payment_hash)
              (mint_candidates (length l)) w).
  { intros l (s & Hin & Hs).
    destruct (first_used_is_Some _ _ _ Hin Hs) as [s' Hf].
    destruct (first_used_Some _ _ _ Hf) as [Hin' Hs'].
    exists s', (drawn (length l) 0 w).
    rewrite mint_run. cbv zeta. fold (mint_candidates (length l)).
    by rewrite Hf. }
  assert (Hsplit : reused w split_candidates →
            aborts_on_reuse (LedgerAPI.split proofs amt scnd)
              split_candidates w).
  { intros (s & Hin & Hs).
    destruct (first_used_is_Some _ _ _ Hin Hs) as [s' Hf].
    destruct (first_used_Some _ _ _ Hf) as [Hin' Hs'].
    exists s', (drawn (split_draws w proofs amt scnd) 0 w).
    rewrite split_run. cbv zeta. fold split_candidates.
    by rewrite Hf. }
  split; [apply Hmint|]. split; [|split; [done|split]].
  - intros Hr. destruct (Hmint _ Hr) as (s & w' & ? & ? & Hrun & ?).
    exists s, w'. rewrite wallet_mint_run, Hrun. done.
  - intros Hne Hr. destruct (Hsplit Hr) as (s & w' & ? & ? & Hrun & ?).
    exists s, w'. rewrite wallet_split_run, Hrun.
    by destruct proofs.
  - split.
    + intros Htr. apply first_used_None. rewrite mint_run in Htr.
      cbv zeta in Htr. fold (mint_candidates (length amounts)) in Htr.
      by destruct (first_used _ _).
    + intros Htr. apply first_used_None. rewrite split_run in Htr.
      cbv zeta in Htr. fold split_candidates in Htr.
      by destruct (first_used _ _).
Qed.

Lemma popcount_pos_positive (p : positive) : (0 < popcount_pos p)%nat.
Proof. induction p; simpl; lia. Qed.

Lemma amount_split_length (n : Z) :
  0 ≤ n → length (amount_split n) = popcount n.
Proof. apply get_output_split_length. Qed.

Lemma amounts_of_deref (w : World) (l : list ref) :
  amounts_of w l = map amount (map (deref w) l).
Proof. unfold amounts_of. by rewrite map_map. Qed.

Lemma secrets_of_deref (w : World) (l : list ref) :
  secrets_of w l = map secret (map (deref w) l).
Proof. unfold secrets_of. by rewrite map_map. Qed.

Lemma sum_positive (l : list Z) :
  l ≠ [] → Forall (λ x, 0 < x) l → 0 < Py.sum l.
Proof.
  intros Hne HF. destruct HF as [|x l Hx HF]; [done|].
  rewrite sum_cons. clear Hne.
  assert (0 ≤ Py.sum l); [|lia].
  induction HF as [|y l Hy HF IH]; [by rewrite sum_nil|].
  rewrite sum_cons. lia.
Qed.

Lemma trace_split_committed (proofs frst scnd : list ref) (w : World) :
  trace (split_committed proofs frst scnd w)
  = trace w
    ++ [SELF_proofs_assign (kept_proofs w proofs (self_proofs w));
        SELF_proofs_extend (frst ++ scnd)]
    ++ map (λ p, DB_store_proof (deref w p)) (frst ++ scnd)
    ++ map (λ p, DB_invalidate_proof (deref w p)) proofs.
Proof.
  unfold split_committed, invalidated, stored, db_applied. simpl.
  by rewrite <- !app_assoc.
Qed.

(** C2: for a non-empty pile of proofs of positive amounts with total [T]
    and an amount [0 ≤ a ≤ T], when the candidate secrets are unused and
    the mint answers the posted request with [fst] and [snd] matching the
    submitted outputs position by position (every signature a point with a
    key in the keyset), [Wallet.split] returns a keep pile whose amounts
    are [amount_split (T - a)] and a send pile whose amounts are
    [amount_split a], in the order of the submitted outputs and under the
    candidate secrets in that order; hence the sums are [T - a] and [a],
    the sizes are the pop counts, and every amount is a power of two. *)
Theorem split_conservation (proofs : list ref) (amt : Z)
  (scnd : option string) (w : World)
  (promises_fst promises_snd : list BlindedSignature) :
  let total := Py.sum (amounts_of w proofs) in
  let outputs := (split_outputs w proofs amt scnd).*1 in
  proofs ≠ [] →
  Forall (λ a, 0 < a) (amounts_of w proofs) →
  0 ≤ amt ≤ total →
  Forall (λ s, crud.secret_used s (self_db w) = false)
    (split_secrets w proofs amt scnd) →
  mint_post_split (map (deref w) proofs) amt outputs
  = Json (SplitPromises promises_fst promises_snd) →
  positional promises_fst promises_snd outputs
    (length (amount_split (total - amt))) →
  unblindable (self_keys w) (promises_fst ++ promises_snd) →
  ∃ keep send w',
    Wallet.split proofs amt scnd w = (w', Ok (keep, send))
    ∧ (∃ rest, trace w'
               = trace w
                 ++ POST_split (map (deref w) proofs) amt outputs :: rest)
    ∧ amounts_of w' keep = amount_split (total - amt)
    ∧ amounts_of w' send = amount_split amt
    ∧ amounts_of w' (keep ++ send) = map bm_amount outputs
    ∧ secrets_of w' (keep ++ send) = split_secrets w proofs amt scnd
    ∧ Py.sum (amounts_of w' keep) = total - amt
    ∧ Py.sum (amounts_of w' send) = amt
    ∧ length keep = popcount (total - amt)
    ∧ length send = popcount amt
    ∧ Forall is_pow2 (amounts_of w' (keep ++ send)).
Proof.
  intros total outputs Hne Hpos Hamt Hfresh Hmint Hposl Hub.
  apply first_used_None in Hfresh.
  destruct (ledger_split_ok proofs amt scnd w promises_fst promises_snd)
    as (pk & ps & Hrun & Hak & Has & Hsec); try done.
  fold total in Hak.
  set (w1 := allocated (pk ++ ps) (split_posted w proofs amt scnd)) in *.
  set (keep := seq (length (heap w)) (length pk)) in *.
  set (send := seq (length (heap w) + length pk) (length ps)) in *.
  assert (Hdk : map (deref w1) keep = pk).
  { pose proof (deref_allocated [] pk ps (split_posted w proofs amt scnd))
      as Hd. simpl in Hd. by rewrite Nat.add_0_r in Hd. }
  assert (Hds : map (deref w1) send = ps).
  { pose proof (deref_allocated pk ps [] (split_posted w proofs amt scnd))
      as Hd. by rewrite app_nil_r in Hd. }
  assert (0 < total) by (by apply sum_positive; [destruct proofs|]).
  assert (Hlk : length keep = popcount (total - amt)).
  { unfold keep. rewrite length_seq, <- (length_map amount), Hak.
    apply amount_split_length. lia. }
  assert (Hls : length send = popcount amt).
  { unfold send. rewrite length_seq, <- (length_map amount), Has.
    apply amount_split_length. lia. }
  assert (Hsome : ¬ (keep = [] ∧ send = [])).
  { intros [Hk Hs]. rewrite Hk in Hlk. rewrite Hs in Hls. simpl in *.
    destruct (total - amt) as [|p|p] eqn:Hta; [|simpl in Hlk|lia].
    - assert (amt = total) as -> by lia.
      destruct total as [|p|p]; [lia|simpl in Hls|lia].
      pose proof (popcount_pos_positive p). lia.
    - pose proof (popcount_pos_positive p). lia. }
  exists keep, send, (split_committed proofs keep send w1).
  split.
  { rewrite wallet_split_run, Hrun. destruct proofs; [done|].
    destruct keep, send; try done. by destruct Hsome. }
  split.
  { rewrite trace_split_committed. subst w1. simpl trace.
    rewrite <- app_assoc. by eexists. }
  rewrite !amounts_of_deref, secrets_of_deref.
  change (deref (split_committed proofs keep send w1)) with (deref w1).
  rewrite map_app, Hdk, Hds.
  rewrite Hsec, map_app, Hak, Has.
  unfold outputs. rewrite split_outputs_amounts. fold total.
  rewrite !get_output_split_sum by lia.
  repeat split; try done.
  apply Forall_app. split; apply get_output_split_pow2; lia.
Qed.

(** In a list made of [l1] then [l2], an element that cannot be in [l1]
    comes after an element that cannot be in [l2]. *)
Lemma app_order {A} (l1 l2 : list A) (P Q : A → Prop) (i j : nat) (x y : A) :
  (∀ z, z ∈ l1 → ¬ Q z) → (∀ z, z ∈ l2 → ¬ P z) →
  (l1 ++ l2) !! i = Some x → Q x →
  (l1 ++ l2) !! j = Some y → P y →
  (j < i)%nat.
Proof.
  intros H1 H2 Hi Hx Hj Hy.
  apply lookup_app_Some in Hi as [Hi|[Hi _]].
  { destruct (H1 x); [|done]. by apply list_elem_of_lookup_2 in Hi. }
  apply lookup_app_Some in Hj as [Hj|[_ Hj]].
  { apply lookup_lt_Some in Hj. lia. }
  destruct (H2 y); [|done]. by apply list_elem_of_lookup_2 in Hj.
Qed.

(** C9: a [Wallet.split] that returns has, after its one request, first
    replaced [self.proofs] by the proofs whose secret is not an input's,
    then extended it by the new piles, then stored every new proof, and
    only then invalidated the inputs: among the events of the call every
    invalidation comes after every store. *)
Theorem split_persists_before_invalidating (proofs : list ref) (amt : Z)
  (scnd : option string) (w w' : World) (keep send : list ref) :
  Wallet.split proofs amt scnd w = (w', Ok (keep, send)) →
  ∃ outputs events,
    trace w' = trace w ++ events
    ∧ events
      = [POST_split (map (deref w) proofs) amt outputs;
         SELF_proofs_assign (kept_proofs w' proofs (self_proofs w));
         SELF_proofs_extend (keep ++ send)]
        ++ map (λ p, DB_store_proof (deref w' p)) (keep ++ send)
        ++ map (λ p, DB_invalidate_proof (deref w' p)) proofs
    ∧ self_proofs w' = kept_proofs w' proofs (self_proofs w) ++ keep ++ send
    ∧ ∀ i j p q,
        events !! i = Some (DB_invalidate_proof p) →
        events !! j = Some (DB_store_proof q) →
        (j < i)%nat.
Proof.
  rewrite wallet_split_run. destruct proofs as [|p0 proofs]; [done|].
  destruct (LedgerAPI.split (p0 :: proofs) amt scnd w)
    as [w1 [[frst sc]|e]] eqn:Hrun; [|done].
  intros Hret.
  assert (w' = split_committed (p0 :: proofs) frst sc w1
          ∧ keep = frst ∧ send = sc) as (-> & -> & ->).
  { destruct frst, sc; by try injection Hret as <- <- <-. }
  clear Hret.
  apply ledger_split_inv in Hrun as [[_ (s & ? & _)]|[_ [ps ->]]]; [done|].
  set (w1 := allocated ps (split_posted w (p0 :: proofs) amt scnd)).
  eexists _, _. split; [|split; [reflexivity|split; [done|]]].
  { rewrite trace_split_committed. subst w1. simpl trace.
    by rewrite <- !app_assoc. }
  intros i j p q Hi Hj. rewrite app_assoc in Hi, Hj.
  eapply (app_order _ _ (λ e, ∃ x, e = DB_store_proof x)
            (λ e, ∃ x, e = DB_invalidate_proof x));
    [| |exact Hi|by eexists|exact Hj|by eexists].
  - intros z Hz [x ->].
    apply elem_of_app in Hz as [Hz|Hz].
    + repeat (apply elem_of_cons in Hz as [Hz|Hz]; [done|]).
      by apply elem_of_nil in Hz.
    + by apply list_elem_of_fmap in Hz as (? & ? & _).
  - intros z Hz [x ->].
    by apply list_elem_of_fmap in Hz as (? & ? & _).
Qed.

(** What [_construct_proofs] can raise. *)
Lemma construct_proofs_raise (promises : list BlindedSignature)
  (secrets : list string) (rs : list PrivateKey) (w w' : World) (e : Exn) :
  LedgerAPI._construct_proofs promises secrets rs w = (w', Raise e) →
  e = ValueError "PublicKey" ∨ ∃ k, e = KeyError k.
Proof.
  unfold LedgerAPI._construct_proofs.
  generalize (zip (zip promises secrets) rs). intros xs. revert w.
  induction xs as [|[[promise s] r] xs IH]; intros w Hrun; simpl in Hrun;
    [done|].
  apply bind_inv in Hrun as [(w1 & a & Hstep & Hrest)|(e' & Hstep & He)].
  - apply bind_inv in Hrest as [(w2 & refs & Hxs & Hret)|(e' & Hxs & He)];
      [done|].
    injection He as ->. by eapply IH.
  - injection He as ->. rewrite unblind_step in Hstep.
    destruct (unblind _ _); [done|]. injection Hstep as _ <-.
    destruct (PublicKey_fromhex _); [right; by eexists|by left].
Qed.

(** [LedgerAPI.split] and [Wallet.split] never raise the balance error. *)
Lemma ledger_split_raise (proofs : list ref) (amt : Z) (scnd : option string)
  (w w' : World) (e : Exn) :
  LedgerAPI.split proofs amt scnd w = (w', Raise e) →
  e ≠ Exception "balance too low.".
Proof.
  rewrite split_run. cbv zeta.
  destruct (first_used _ _) as [s|]; [by intros [= <- <-]|].
  destruct (mint_post_split _ _ _) as [| |[msg|pf ps]];
    try by intros [= <- <-].
  intros Hrun.
  apply bind_inv in Hrun as [(w1 & a & H1 & Hrest)|(e' & H1 & He)].
  - apply bind_inv in Hrest as [(w2 & b & H2 & Hret)|(e' & H2 & He)];
      [done|].
    injection He as ->.
    by apply construct_proofs_raise in H2 as [->|[k ->]].
  - injection He as ->.
    by apply construct_proofs_raise in H1 as [->|[k ->]].
Qed.

Lemma wallet_split_raise (proofs : list ref) (amt : Z) (scnd : option string)
  (w w' : World) (e : Exn) :
  Wallet.split proofs amt scnd w = (w', Raise e) →
  e ≠ Exception "balance too low.".
Proof.
  rewrite wallet_split_run. destruct proofs as [|p proofs];
    [by intros [= <- <-]|].
  destruct (LedgerAPI.split _ _ _ _) as [w1 [[frst sc]|e1]] eqn:Hrun.
  - destruct frst, sc; by intros [= <- <-].
  - intros [= <- <-]. by eapply ledger_split_raise.
Qed.

(** C6, amended: [split_to_send] keeps the proofs with [reserved = false];
    it raises the balance error, before anything else happens, when none
    is left, and otherwise it is [split] on the filtered pile, whatever the
    sum of that pile: the balance error is raised exactly when the filtered
    pile is empty. *)
Theorem split_to_send_guard (proofs : list ref) (amt : Z)
  (scnd : option string) (w : World) :
  let pile := filter (λ p, reserved (deref w p) = false) proofs in
  Wallet.split_to_send proofs amt scnd w
  = match pile with
    | [] => (w, Raise (Exception "balance too low."))
    | _ :: _ => Wallet.split pile amt scnd w
    end
  ∧ ((Wallet.split_to_send proofs amt scnd w).2
     = Raise (Exception "balance too low.") ↔ pile = []).
Proof.
  intros pile.
  assert (Hrun : Wallet.split_to_send proofs amt scnd w
    = match pile with
      | [] => (w, Raise (Exception "balance too low."))
      | _ :: _ => Wallet.split pile amt scnd w
      end).
  { unfold Wallet.split_to_send. unfold bind at 1, get at 1. fold pile.
    destruct pile as [|p pile']; [done|].
    by rewrite bool_decide_eq_false_2 by (simpl; lia). }
  split; [done|]. rewrite Hrun.
  destruct pile as [|p pile']; [done|]. split; [|done].
  destruct (Wallet.split _ _ _ _) as [w' [x|e]] eqn:Hsplit; [done|].
  intros [= ->]. by apply wallet_split_raise in Hsplit.
Qed.

Lemma prefix_app (b t : string) :
  String.prefix (b +:+ ":") (b +:+ ":" +:+ t) = true.
Proof.
  induction b as [|c b IH]; simpl.
  - by destruct t.
  - by destruct (ascii_dec c c).
Qed.

(** C8: when splitting the base [b] on the marker [P2SH:] yields exactly
    two parts (so that [b] contains the marker), [generate_secrets] returns
    [n] strings [b + ":" + t], one for each of the next [n] fresh secrets
    [t], so each starts with [b + ":"] and, the fresh secrets being
    distinct, they are pairwise distinct; otherwise it draws nothing and
    returns [["0:" + b; ...; "(n-1):" + b]]. *)
Theorem generate_secrets_expansion (b : string) (n : Z) (w : World) :
  let parts := length (Py.split b "P2SH:") in
  let draws := fresh_secrets (n_secrets w) (Z.to_nat n) in
  let tailed := map (λ t, b +:+ ":" +:+ t) draws in
  (parts = 2%nat →
   (∃ pre post, b = pre +:+ "P2SH:" +:+ post)
   ∧ LedgerAPI.generate_secrets b n w = (drawn (Z.to_nat n) 0 w, Ok tailed)
   ∧ length tailed = Z.to_nat n
   ∧ Forall (λ s, String.prefix (b +:+ ":") s = true) tailed
   ∧ (NoDup draws → NoDup tailed))
  ∧ (parts ≠ 2%nat →
     LedgerAPI.generate_secrets b n w
     = (w, Ok (map (λ i : nat, pretty i +:+ ":" +:+ b)
                 (seq 0 (Z.to_nat n))))).
Proof.
  intros parts draws tailed. unfold LedgerAPI.generate_secrets, Py.range.
  fold parts. split; intros Hparts.
  - split.
    { destruct (split_two_parts b "P2SH:") as (pre & post & _ & Hb);
        [done|done|]. by exists pre, post. }
    rewrite bool_decide_eq_true_2 by done.
    rewrite (tails_run b 0), length_seq. fold draws. fold tailed.
    split; [done|]. split; [|split].
    + unfold tailed, draws. by rewrite length_map, fresh_secrets_length.
    + apply Forall_forall. intros s (t & -> & _)%list_elem_of_fmap.
      apply prefix_app.
    + intros Hnd. apply NoDup_fmap_2; [|done].
      intros t1 t2 Heq. by repeat apply String.app_inj in Heq.
  - by rewrite bool_decide_eq_false_2.
Qed.

Lemma db_applied_cons (op : Proof → crud.Store → crud.Store)
  (ev : Proof → Event) (p : ref) (l : list ref) (w : World) :
  db_applied op ev l (db_applied op ev [p] w) = db_applied op ev (p :: l) w.
Proof. unfold db_applied, deref. simpl. f_equal. by rewrite <- app_assoc. Qed.

Lemma db_applied_nil (op : Proof → crud.Store → crud.Store)
  (ev : Proof → Event) (w : World) :
  db_applied op ev [] w = w.
Proof. destruct w. unfold db_applied. simpl. by rewrite app_nil_r. Qed.

Lemma db_invalidate_run (p : ref) (w : World) :
  db_invalidate_proof p w = (invalidated [p] w, Ok tt).
Proof. reflexivity. Qed.

(** The loop of [Wallet.invalidate] over an answer whose indices are all
    in range. *)
Lemma invalidate_loop_acc (proofs : list ref) (items : CheckJson)
  (acc gone : list ref) (w : World) :
  reported_spent proofs items = Some gone →
  for_acc
    (λ invalidated_proofs '(idx, spendable),
       if negb spendable then
         match py_index proofs idx with
         | None => raise IndexError
         | Some p =>
             db_invalidate_proof p;;
             ret (invalidated_proofs ++ [p])
         end
       else ret invalidated_proofs)
    acc items w
  = (invalidated gone w, Ok (acc ++ gone)).
Proof.
  revert acc gone w.
  induction items as [|[idx spendable] items IH]; intros acc gone w Hrep;
    simpl in Hrep.
  - injection Hrep as <-. simpl. unfold ret, invalidated.
    by rewrite db_applied_nil, app_nil_r.
  - simpl for_acc. unfold bind at 1. destruct spendable.
    + change (negb true) with false. cbv iota. unfold ret at 1.
      by apply IH.
    + change (negb false) with true. cbv iota.
      destruct (py_index proofs idx) as [p|]; [|done].
      destruct (reported_spent proofs items) as [gone'|] eqn:Hrest; [|done].
      injection Hrep as <-.
      unfold bind at 1.
      rewrite db_invalidate_run.
      unfold ret at 1. rewrite (IH (acc ++ [p]) gone') by done.
      unfold invalidated. rewrite db_applied_cons.
      by rewrite <- app_assoc.
Qed.

Lemma invalidate_run (proofs gone : list ref) (items : CheckJson)
  (w : World) :
  mint_post_check (map (deref w) proofs) = Json items →
  reported_spent proofs items = Some gone →
  Wallet.invalidate proofs w = (reconciled proofs gone w, Ok tt).
Proof.
  intros Hcheck Hrep. unfold Wallet.invalidate.
  unfold bind at 1.
  unfold Wallet.check_spendable, LedgerAPI.check_spendable.
  unfold bind at 1, get at 1. unfold bind at 1, emit at 1.
  rewrite Hcheck. unfold ret at 1.
  unfold bind at 1. erewrite invalidate_loop_acc by exact Hrep.
  unfold bind at 1, get at 1. unfold Wallet.assign_self_proofs.
  unfold bind at 1, emit at 1, set_self_proofs.
  f_equal.
Qed.

Lemma invalidate_keeps_dead (w : World) (gone : list ref) (db : crud.Store)
  (s : string) :
  crud.live db !! s = None → s ∈ crud.spent db →
  crud.live (foldl (λ db p, crud.invalidate_proof (deref w p) db) db gone)
    !! s = None
  ∧ s ∈ crud.spent
          (foldl (λ db p, crud.invalidate_proof (deref w p) db) db gone).
Proof.
  revert db. induction gone as [|p gone IH]; intros db Hl Hs; simpl; [done|].
  apply (IH (crud.invalidate_proof (deref w p) db)); simpl.
  - destruct (decide (secret (deref w p) = s)) as [->|Hne].
    + apply lookup_delete_eq.
    + by rewrite lookup_delete_ne.
  - apply elem_of_union. by right.
Qed.

Lemma invalidate_all_dead (w : World) (gone : list ref) (db : crud.Store)
  (p : ref) :
  p ∈ gone →
  crud.live (foldl (λ db p, crud.invalidate_proof (deref w p) db) db gone)
    !! (secret (deref w p)) = None
  ∧ secret (deref w p)
    ∈ crud.spent
        (foldl (λ db p, crud.invalidate_proof (deref w p) db) db gone).
Proof.
  revert db. induction gone as [|q gone IH]; intros db Hin; simpl.
  - by apply elem_of_nil in Hin.
  - apply elem_of_cons in Hin as [->|Hin];
      [|exact (IH (crud.invalidate_proof (deref w q) db) Hin)].
    apply invalidate_keeps_dead; simpl.
    + apply lookup_delete_eq.
    + apply elem_of_union. left. by apply elem_of_singleton.
Qed.

Lemma invalidate_others_live (w : World) (gone : list ref) (db : crud.Store)
  (s : string) :
  s ∉ secrets_of w gone →
  crud.live (foldl (λ db p, crud.invalidate_proof (deref w p) db) db gone) !! s
  = crud.live db !! s.
Proof.
  revert db. induction gone as [|q gone IH]; intros db Hs; simpl; [done|].
  unfold secrets_of in Hs. simpl in Hs.
  apply not_elem_of_cons in Hs as [Hne Hs].
  rewrite IH by done. simpl. by rewrite lookup_delete_ne.
Qed.

(** C7, amended: when the melt answer has [paid = false], [pay_lightning]
    raises the payment error and the heap, [self.proofs] and the store are
    as before.  When it has [paid = true], the wallet asks the mint which
    inputs are still spendable and prunes exactly the inputs [gone] that
    the answer reports as spent: each of them is gone from [self.proofs]
    by its secret and invalidated in the store, and every other secret is
    as live as before.  The inputs are all invalidated when the answer
    reports all of them as spent. *)
Theorem pay_lightning_reconciles (proofs : list ref) (invoice : string)
  (w : World) (status : MeltJson) :
  mint_post_melt (map (deref w) proofs) invoice = Json status →
  let posted := logged [POST_melt (map (deref w) proofs) invoice] w in
  (paid status = false →
   Wallet.pay_lightning proofs invoice w
   = (posted, Raise (Exception "could not pay invoice."))
   ∧ heap posted = heap w
   ∧ self_proofs posted = self_proofs w
   ∧ self_db posted = self_db w)
  ∧ (paid status = true →
     ∀ items gone,
       mint_post_check (map (deref w) proofs) = Json items →
       reported_spent proofs items = Some gone →
       let w' := reconciled proofs gone posted in
       Wallet.pay_lightning proofs invoice w = (w', Ok true)
       ∧ heap w' = heap w
       ∧ self_proofs w' = kept_proofs w gone (self_proofs w)
       ∧ (∀ p, p ∈ gone →
            (secret (deref w p) ∉ secrets_of w' (self_proofs w'))
            ∧ crud.live (self_db w') !! (secret (deref w p)) = None
            ∧ crud.secret_used (secret (deref w p)) (self_db w') = true)
       ∧ (∀ s, s ∉ secrets_of w gone →
            crud.live (self_db w') !! s = crud.live (self_db w) !! s)
       ∧ (proofs ⊆ gone →
          ∀ p, p ∈ proofs →
            (secret (deref w p) ∉ secrets_of w' (self_proofs w'))
            ∧ crud.live (self_db w') !! (secret (deref w p)) = None)).
Proof.
  intros Hmelt posted.
  assert (Hpay : LedgerAPI.pay_lightning proofs invoice w
                 = (posted, Ok status)).
  { unfold LedgerAPI.pay_lightning. unfold bind at 1, get at 1.
    unfold bind at 1, emit at 1. by rewrite Hmelt. }
  split; intros Hpaid.
  - split; [|done]. unfold Wallet.pay_lightning.
    unfold bind at 1. rewrite Hpay, Hpaid. done.
  - intros items gone Hcheck Hrep w'.
    assert (Hdead : ∀ p, p ∈ gone →
      (secret (deref w p) ∉ secrets_of w' (self_proofs w'))
      ∧ crud.live (self_db w') !! (secret (deref w p)) = None
      ∧ crud.secret_used (secret (deref w p)) (self_db w') = true).
    { intros p Hp.
      destruct (invalidate_all_dead w gone (self_db w) p Hp) as [Hl Hs].
      split; [|split; [exact Hl|]].
      - intros (q & Hq & Hin)%list_elem_of_fmap.
        apply list_elem_of_filter in Hin as [Hin _].
        apply Hin. apply list_elem_of_fmap. exists p.
        split; [exact (eq_sym Hq)|done].
      - unfold crud.secret_used. apply bool_decide_eq_true_2. by right. }
    split; [|split; [done|split; [done|split; [done|split]]]].
    + unfold Wallet.pay_lightning. unfold bind at 1. rewrite Hpay, Hpaid.
      unfold bind at 1.
      rewrite (invalidate_run proofs gone items posted) by done. done.
    + intros s Hs. by apply invalidate_others_live.
    + intros Hall p Hp. destruct (Hdead p (Hall p Hp)) as (? & ? & _). done.
Qed.

(** ** [set_reserved] *)

Lemma set_reserved_run (proofs : list ref) (flag : bool) (w : World) :
  Wallet.set_reserved proofs flag w
  = (foldl (reserve_step flag (uuid1 (n_uuids w))) (uuid_drawn w) proofs,
     Ok tt).
Proof.
  unfold Wallet.set_reserved. unfold bind at 1, draw_uuid at 1.
  fold (uuid_drawn w). generalize (uuid1 (n_uuids w)). intros sid.
  generalize (uuid_drawn w). clear w. intros w. revert w.
  induction proofs as [|p proofs IH]; intros w; simpl; [done|].
  unfold bind at 1. unfold bind at 1, get at 1.
  unfold bind at 1, store at 1. unfold db_update_proof_reserved.
  unfold bind at 1, get at 1. unfold bind at 1, emit at 1, set_self_db at 1.
  by rewrite IH.
Qed.

Lemma reserve_step_length (flag : bool) (sid : string) (w : World) (p : ref) :
  length (heap (reserve_step flag sid w p)) = length (heap w).
Proof. unfold reserve_step. simpl. apply length_insert. Qed.

Lemma reserve_step_deref (flag : bool) (sid : string) (w : World)
  (p r : ref) :
  deref (reserve_step flag sid w p) r
  = if decide (r = p ∧ (p < length (heap w))%nat)
    then mark_reserved (deref w p) else deref w r.
Proof.
  unfold reserve_step, deref. simpl.
  destruct (decide (r = p ∧ (p < length (heap w))%nat)) as [[-> Hlt]|Hn].
  - by rewrite list_lookup_insert_eq.
  - destruct (decide (r = p)) as [->|Hne].
    + rewrite list_insert_ge; [done|]. lia.
    + by rewrite list_lookup_insert_ne.
Qed.

Lemma reserve_loop_inv (flag : bool) (sid : string) (proofs : list ref)
  (w : World) :
  let w' := foldl (reserve_step flag sid) w proofs in
  length (heap w') = length (heap w)
  ∧ (∀ r, secret (deref w' r) = secret (deref w r))
  ∧ (∀ r, reserved (deref w r) = true → reserved (deref w' r) = true)
  ∧ (∀ p, p ∈ proofs → (p < length (heap w))%nat →
          reserved (deref w' p) = true).
Proof.
  revert w. induction proofs as [|p proofs IH]; intros w; simpl.
  - repeat split; try done. by intros p ?%elem_of_nil.
  - destruct (IH (reserve_step flag sid w p)) as (Hlen & Hsec & Hmono & Hres).
    rewrite reserve_step_length in Hlen.
    assert (Hone : (p < length (heap w))%nat →
                   reserved (deref (reserve_step flag sid w p) p) = true).
    { intros Hlt. rewrite reserve_step_deref.
      by rewrite decide_True. }
    repeat split.
    + done.
    + intros r. rewrite Hsec, reserve_step_deref. by case_decide as Hd;
        [destruct Hd as [-> _]|].
    + intros r Hr. apply Hmono. rewrite reserve_step_deref.
      by case_decide.
    + intros q Hq Hlt. apply elem_of_cons in Hq as [->|Hq].
      * by apply Hmono, Hone.
      * apply Hres; [done|]. by rewrite reserve_step_length.
Qed.

(** What [set_reserved] does, for every batch and every flag: it returns;
    every proof of the batch is left with [reserved = true] in memory,
    whatever the flag; and it makes one store update per proof, each with
    the flag and the same fresh send id. *)
Lemma set_reserved_effect (proofs : list ref) (flag : bool) (w : World) :
  ∃ w' events,
    Wallet.set_reserved proofs flag w = (w', Ok tt)
    ∧ (∀ p, p ∈ proofs → (p < length (heap w))%nat →
            reserved (deref w' p) = true)
    ∧ trace w' = trace w ++ events
    ∧ Forall2 (λ e p, ∃ q, e = DB_update_proof_reserved q flag
                                 (uuid1 (n_uuids w))
                           ∧ secret q = secret (deref w p))
        events proofs.
Proof.
  rewrite set_reserved_run.
  generalize (uuid1 (n_uuids w)). intros sid.
  assert (Hev : ∀ l (v : World), ∃ events,
    trace (foldl (reserve_step flag sid) v l) = trace v ++ events
    ∧ Forall2 (λ e p, ∃ q, e = DB_update_proof_reserved q flag sid
                           ∧ secret q = secret (deref v p)) events l).
  { induction l as [|p l IH]; intros v; simpl.
    - exists []. by rewrite app_nil_r.
    - destruct (IH (reserve_step flag sid v p)) as (events & Htr & HF).
      eexists (_ :: events). split.
      + rewrite Htr. simpl. by rewrite <- app_assoc.
      + constructor.
        * eexists. split; [done|].
          change (default _ _) with (deref (reserve_step flag sid v p) p).
          rewrite reserve_step_deref. by case_decide.
        * eapply Forall2_impl; [exact HF|].
          intros e r (q & -> & Hq). exists q. split; [done|].
          rewrite Hq, reserve_step_deref. by case_decide as Hd;
            [destruct Hd as [-> _]|]. }
  destruct (Hev proofs (uuid_drawn w)) as (events & Htr & HF).
  eexists _, events. split; [done|]. split; [|done].
  intros p Hp Hlt.
  by apply (reserve_loop_inv flag sid proofs (uuid_drawn w)).
Qed.

End wallet_properties.

(** * Worked examples on the demo mint *)

(** C2, witness: the pile [8; 4; 1] split at [5] on the honest mint. *)
Lemma split_conservation_witness :
  ∃ keep send (w' : @World honest),
    Wallet.split (H := honest) [0; 1; 2]%nat 5 None demo_wallet
    = (w', Ok (keep, send))
    ∧ amounts_of w' keep = [8]
    ∧ amounts_of w' send = [1; 4].
Proof.
  destruct (split_conservation (H := honest) [0; 1; 2]%nat 5 None demo_wallet
              [mkBlindedSignature 8 "C_B_tok0"]
              [mkBlindedSignature 1 "C_B_tok1";
               mkBlindedSignature 4 "C_B_tok2"])
    as (keep & send & w' & Hrun & _ & Hk & Hs & _).
  - done.
  - vm_compute. repeat constructor.
  - vm_compute. split; discriminate.
  - vm_compute. repeat constructor.
  - vm_compute. reflexivity.
  - vm_compute. split; reflexivity.
  - vm_compute. repeat constructor; eexists; reflexivity.
  - exists keep, send, w'. split; [exact Hrun|]. split.
    + rewrite Hk. vm_compute. reflexivity.
    + rewrite Hs. vm_compute. reflexivity.
Defined.

(** C3, counterexample: on the wallet holding [8; 4; 1], splitting the one
    proof of amount [1] at [5] does not fail before the network call: the
    request is posted (and it is the mint that refuses). *)
Lemma ledger_split_range_unchecked :
  ¬ (∀ (E : Externals) (w : World) (proofs : list ref) (amt : Z)
       (scnd : option string),
       amt < 0 ∨ Py.sum (amounts_of w proofs) < amt →
       ∃ w' e, LedgerAPI.split proofs amt scnd w = (w', Raise e)
               ∧ trace w' = trace w).
Proof.
  intros Hclaim.
  destruct (Hclaim honest demo_wallet [2%nat] 5 None)
    as (w' & e & Hrun & Htr).
  { right. vm_compute. reflexivity. }
  assert (Hpost :
    length (trace (LedgerAPI.split (H := honest) [2%nat] 5 None
                     demo_wallet).1) = 1%nat)
    by (vm_compute; reflexivity).
  rewrite Hrun in Hpost. simpl in Hpost. rewrite Htr in Hpost.
  discriminate Hpost.
Qed.

(** C3, witness: the same out-of-range split posts its request. *)
Lemma ledger_split_posts_witness :
  ∃ (w' : @World honest) res outputs,
    LedgerAPI.split (H := honest) [2%nat] 5 None demo_wallet = (w', res)
    ∧ trace w' = [POST_split [new_Proof 1 "c1" "s1"] 5 outputs]
    ∧ map bm_amount outputs = [4; 1; 4].
Proof.
  destruct (ledger_split_posts (H := honest) [2%nat] 5 None demo_wallet)
    as (w' & res & outputs & Hrun & Htr & Hout).
  - vm_compute. repeat constructor.
  - exists w', res, outputs. split; [exact Hrun|]. split.
    + exact Htr.
    + rewrite Hout. vm_compute. reflexivity.
Defined.

(** C4, witness: the store already knows [tok0], the first secret the
    generator proposes; minting [3] aborts. *)
Lemma used_secret_aborts_witness :
  aborts_on_reuse (H := honest) (LedgerAPI.mint [1; 2] None)
    (fresh_secrets (H := honest) 0 2) reuse_wallet.
Proof.
  apply (used_secret_aborts (H := honest) reuse_wallet [1; 2] None 3
           [0%nat] 1 None).
  exists "tok0". split.
  - vm_compute. constructor.
  - vm_compute. reflexivity.
Defined.

(** C5: on the wallet holding [8; 4; 1], [set_reserved] with the flag
    [false] on the proofs of [8] and [1] persists [reserved = false] with
    the one send id [uuid0] for both, and leaves both objects with
    [reserved = true] in memory. *)
Theorem set_reserved_false_marks_reserved :
  ∃ w' : @World honest,
    Wallet.set_reserved (H := honest) [0; 2]%nat false demo_wallet
    = (w', Ok tt)
    ∧ map (λ p, reserved (deref w' p)) [0; 2]%nat = [true; true]
    ∧ map (λ s, reserved <$> crud.live (self_db w') !! s) ["s8"; "s1"]
      = [Some false; Some false]
    ∧ map (λ s, send_id <$> crud.live (self_db w') !! s) ["s8"; "s1"]
      = [Some (Some "uuid0"); Some (Some "uuid0")].
Proof.
  exists (Wallet.set_reserved (H := honest) [0; 2]%nat false demo_wallet).1.
  repeat split; vm_compute; reflexivity.
Qed.

(** C6, counterexample: on the wallet holding [8; 4; 1], none reserved,
    sending [5] from the one proof of amount [1] does not raise the balance
    error: the pile is not empty, so the split goes to the mint. *)
Lemma split_to_send_sum_unchecked :
  ¬ (∀ (E : Externals) (w : World) (proofs : list ref) (amt : Z)
       (scnd : option string),
       let pile := filter (λ p, reserved (deref w p) = false) proofs in
       pile = [] ∨ Py.sum (amounts_of w pile) < amt →
       ∃ w', Wallet.split_to_send proofs amt scnd w
             = (w', Raise (Exception "balance too low."))).
Proof.
  intros Hclaim.
  destruct (Hclaim honest demo_wallet [2%nat] 5 None) as (w' & Hrun).
  { right. vm_compute. reflexivity. }
  assert (Hres :
    (Wallet.split_to_send (H := honest) [2%nat] 5 None demo_wallet).2
    = Raise (Exception "Mint Error: split amount is higher than the total sum"))
    by (vm_compute; reflexivity).
  rewrite Hrun in Hres. discriminate Hres.
Qed.

(** C6, witness: the same send is the split of the filtered pile, and its
    error is the mint's. *)
Lemma split_to_send_guard_witness :
  Wallet.split_to_send (H := honest) [2%nat] 5 None demo_wallet
  = Wallet.split (H := honest) [2%nat] 5 None demo_wallet
  ∧ (Wallet.split_to_send (H := honest) [2%nat] 5 None demo_wallet).2
    ≠ Raise (Exception "balance too low.").
Proof.
  destruct (split_to_send_guard (H := honest) [2%nat] 5 None demo_wallet)
    as [Hrun Hiff].
  split; [exact Hrun|].
  intros Hbal. apply Hiff in Hbal. vm_compute in Hbal. discriminate Hbal.
Defined.

(** C7, counterexample: the mint pays the invoice but still reports the
    inputs as spendable; [pay_lightning] returns and the proof of [8] is
    still in [self.proofs] and live in the store. *)
Lemma pay_lightning_paid_keeps_proofs :
  ¬ (∀ (E : Externals) (w : World) (proofs : list ref) (invoice : string)
       (status : MeltJson),
       mint_post_melt (map (deref w) proofs) invoice = Json status →
       paid status = true →
       ∀ p, p ∈ proofs →
         let w' := (Wallet.pay_lightning proofs invoice w).1 in
         (secret (deref w p) ∉ secrets_of w' (self_proofs w'))
         ∧ crud.live (self_db w') !! (secret (deref w p)) = None).
Proof.
  intros Hclaim.
  destruct (Hclaim lagging lagging_wallet [0; 2]%nat "lnbc" (mkMeltJson true)
              eq_refl eq_refl 0%nat) as [_ Hlive].
  { constructor. }
  vm_compute in Hlive. discriminate Hlive.
Qed.

(** C7, witness: the honest mint pays and reports both inputs as spent;
    both are pruned. *)
Lemma pay_lightning_reconciles_witness :
  ∃ w' : @World honest,
    Wallet.pay_lightning (H := honest) [0; 2]%nat "lnbc" demo_wallet
    = (w', Ok true)
    ∧ self_proofs w' = [1%nat]
    ∧ crud.live (self_db w') !! "s8" = None.
Proof.
  destruct (pay_lightning_reconciles (H := honest) [0; 2]%nat "lnbc"
              demo_wallet (mkMeltJson true) eq_refl) as [_ Hpaid].
  destruct (Hpaid eq_refl [(0, false); (1, false)] [0; 2]%nat
              eq_refl eq_refl) as (Hrun & _ & Hmem & Hgone & _).
  eexists. split; [exact Hrun|]. split.
  - rewrite Hmem. vm_compute. reflexivity.
  - apply (Hgone 0%nat). constructor.
Defined.

(** C8, witness: a marked base and an unmarked one, expanded twice. *)
Lemma generate_secrets_expansion_witness :
  (LedgerAPI.generate_secrets (H := honest) "P2SH:abc" 2 demo_wallet).2
  = Ok ["P2SH:abc:tok0"; "P2SH:abc:tok1"]
  ∧ (LedgerAPI.generate_secrets (H := honest) "abc" 2 demo_wallet).2
    = Ok ["0:abc"; "1:abc"].
Proof.
  destruct (generate_secrets_expansion (H := honest) "P2SH:abc" 2 demo_wallet)
    as [Hmarked _].
  destruct (generate_secrets_expansion (H := honest) "abc" 2 demo_wallet)
    as [_ Hplain].
  split.
  - destruct Hmarked as (_ & -> & _); [vm_compute; reflexivity|].
    vm_compute. reflexivity.
  - rewrite Hplain; [|vm_compute; discriminate].
    vm_compute. reflexivity.
Defined.

(** C9, witness: the events of the split of [8; 4; 1] at [5]. *)
Lemma split_persists_before_invalidating_witness :
  ∃ (w' : @World honest) outputs,
    trace w'
    = [POST_split demo_pile 5 outputs;
       SELF_proofs_assign [];
       SELF_proofs_extend [3; 4; 5]%nat;
       DB_store_proof (deref w' 3%nat);
       DB_store_proof (deref w' 4%nat);
       DB_store_proof (deref w' 5%nat);
       DB_invalidate_proof (new_Proof 8 "c8" "s8");
       DB_invalidate_proof (new_Proof 4 "c4" "s4");
       DB_invalidate_proof (new_Proof 1 "c1" "s1")].
Proof.
  set (run := Wallet.split (H := honest) [0; 1; 2]%nat 5 None demo_wallet).
  destruct (split_persists_before_invalidating (H := honest)
              [0; 1; 2]%nat 5 None demo_wallet run.1 [3%nat] [4; 5]%nat)
    as (outputs & events & Htr & Hev & _).
  - vm_compute. reflexivity.
  - exists run.1, outputs. rewrite Htr, Hev. vm_compute. reflexivity.
Defined.

(** * Further properties of the wallet code *)

(** ** More on [_get_output_split] *)

Lemma output_split_loop_app (l1 l2 : list ascii) (k : nat) (rv : list Z) :
  output_split_loop k (l1 ++ l2) rv
  = output_split_loop (k + length l1) l2 (output_split_loop k l1 rv).
Proof.
  revert k rv. induction l1 as [|c l1 IH]; intros k rv; simpl.
  - by rewrite Nat.add_0_r.
  - rewrite IH. f_equal. lia.
Qed.

Lemma bits_amt_neg (p : positive) :
  list_ascii_of_string (Py.drop_last 2 (Py.reversed (Py.bin (Zneg p))))
  = lsb_chars p ++ ["b"%char].
Proof.
  unfold Py.drop_last, Py.reversed, Py.bin.
  rewrite !list_ascii_of_string_of_list_ascii.
  rewrite chars_app, bin_digits_chars. simpl.
  rewrite rev_involutive, <- !app_assoc. simpl.
  rewrite length_app. simpl.
  replace (length (lsb_chars p) + 3 - 2)%nat
    with (length (lsb_chars p ++ ["b"%char]))
    by (rewrite length_app; simpl; lia).
  change (lsb_chars p ++ ["b"%char; "0"%char; "-"%char])
    with (lsb_chars p ++ ["b"%char] ++ ["0"%char; "-"%char]).
  by rewrite app_assoc, take_app_length.
Qed.

Lemma get_output_split_neg (p : positive) :
  _get_output_split (Zneg p) = pows 0 p.
Proof.
  unfold _get_output_split. cbv zeta.
  rewrite bits_amt_neg, output_split_loop_app, output_split_loop_pows.
  reflexivity.
Qed.

(** X1: [_get_output_split] does not reject a negative amount: it reads the
    digits of [bin] past the sign and returns the split of the magnitude. *)
Theorem get_output_split_opp (n : Z) :
  _get_output_split (- n) = _get_output_split n.
Proof.
  destruct n as [|p|p]; [done| |].
  - change (- Z.pos p) with (Z.neg p).
    by rewrite get_output_split_neg, get_output_split_pos.
  - change (- Z.neg p) with (Z.pos p).
    by rewrite get_output_split_neg, get_output_split_pos.
Qed.

Lemma sum_nonneg (l : list Z) : Forall (λ x, 0 < x) l → 0 ≤ Py.sum l.
Proof.
  induction 1 as [|x l Hx _ IH]; [by rewrite sum_nil|].
  rewrite sum_cons. lia.
Qed.

Lemma sum_zero_nil (l : list Z) :
  Forall (λ x, 0 < x) l → Py.sum l = 0 → l = [].
Proof.
  intros HF. destruct HF as [|x l Hx HF]; [done|].
  rewrite sum_cons. pose proof (sum_nonneg l HF). lia.
Qed.

(** A sum of powers of two from position [k + 1] on is a multiple of
    [2 ^ (k + 1)]. *)
Lemma sum_high_multiple (k : nat) (l : list Z) :
  Forall (λ x, ∃ i : nat, (k < i)%nat ∧ x = 2 ^ Z.of_nat i) l →
  ∃ m, Py.sum l = 2 ^ Z.of_nat k * (2 * m).
Proof.
  induction 1 as [|x l (i & Hi & ->) _ [m Hm]].
  - exists 0. rewrite sum_nil. lia.
  - rewrite sum_cons, Hm.
    exists (2 ^ (Z.of_nat i - Z.of_nat k - 1) + m).
    replace (Z.of_nat i) with (Z.of_nat k + (1 + (Z.of_nat i - Z.of_nat k - 1)))
      at 1 by lia.
    rewrite Z.pow_add_r, Z.pow_add_r by lia. change (2 ^ 1) with 2. lia.
Qed.

Lemma pow2_positive (i : nat) : 0 < 2 ^ Z.of_nat i.
Proof. apply Z.pow_pos_nonneg; lia. Qed.

(** A strictly ascending list of powers of two from position [k] on that
    sums to [2 ^ k * p] is the list of the one bits of [p]. *)
Lemma pows_unique (p : positive) (k : nat) (l : list Z) :
  StronglySorted Z.lt l →
  Forall (λ x, ∃ i : nat, (k ≤ i)%nat ∧ x = 2 ^ Z.of_nat i) l →
  Py.sum l = 2 ^ Z.of_nat k * Zpos p →
  l = pows k p.
Proof.
  revert k l.
  assert (Hsplit : ∀ (k : nat) (l : list Z),
    StronglySorted Z.lt l →
    Forall (λ x, ∃ i : nat, (k ≤ i)%nat ∧ x = 2 ^ Z.of_nat i) l →
    (Forall (λ x, ∃ i : nat, (S k ≤ i)%nat ∧ x = 2 ^ Z.of_nat i) l)
    ∨ (∃ l', l = 2 ^ Z.of_nat k :: l'
             ∧ StronglySorted Z.lt l'
             ∧ Forall (λ x, ∃ i : nat, (S k ≤ i)%nat ∧ x = 2 ^ Z.of_nat i)
                 l')).
  { intros k l Hs HF. destruct HF as [|x l (i & Hi & ->) HF]; [by left|].
    apply StronglySorted_inv in Hs as [Hs Hlt].
    assert (Hrest : Forall (λ y, 2 ^ Z.of_nat i < y → ∃ j : nat,
                      (S i ≤ j)%nat ∧ y = 2 ^ Z.of_nat j) l).
    { eapply Forall_impl; [exact HF|]. intros y (j & Hj & ->) Hy.
      exists j. split; [|done].
      apply Z.pow_lt_mono_r_iff in Hy; lia. }
    assert (Hhigh : Forall (λ y, ∃ j : nat,
                      (S i ≤ j)%nat ∧ y = 2 ^ Z.of_nat j) l).
    { rewrite Forall_forall in Hrest, Hlt. apply Forall_forall.
      intros y Hy. apply Hrest; [done|]. by apply Hlt. }
    destruct (decide (i = k)) as [->|Hne].
    - right. by exists l.
    - left. constructor.
      + exists i. split; [lia|done].
      + eapply Forall_impl; [exact Hhigh|].
        intros y (j & Hj & ->). exists j. split; [lia|done]. }
  induction p as [q IH|q IH|]; intros k l Hs HF Hsum; simpl pows.
  - destruct (Hsplit k l Hs HF) as [Hhigh|(l' & -> & Hs' & Hhigh)].
    + destruct (sum_high_multiple k l) as [m Hm].
      { eapply Forall_impl; [exact Hhigh|].
        intros y (j & Hj & ->). exists j. split; [lia|done]. }
      rewrite Hm in Hsum. pose proof (pow2_positive k).
      apply Z.mul_reg_l in Hsum; lia.
    + f_equal. apply IH; [done|done|].
      rewrite sum_cons in Hsum. rewrite Nat2Z.inj_succ, Z.pow_succ_r by lia.
      lia.
  - destruct (Hsplit k l Hs HF) as [Hhigh|(l' & -> & Hs' & Hhigh)].
    + apply IH; [done|done|].
      rewrite Hsum, Nat2Z.inj_succ, Z.pow_succ_r by lia. lia.
    + destruct (sum_high_multiple k l') as [m Hm].
      { eapply Forall_impl; [exact Hhigh|].
        intros y (j & Hj & ->). exists j. split; [lia|done]. }
      rewrite sum_cons, Hm in Hsum. pose proof (pow2_positive k).
      assert (2 ^ Z.of_nat k * (1 + 2 * m) = 2 ^ Z.of_nat k * Z.pos q~0)
        as Heq by lia.
      apply Z.mul_reg_l in Heq; lia.
  - destruct (Hsplit k l Hs HF) as [Hhigh|(l' & -> & Hs' & Hhigh)].
    + destruct (sum_high_multiple k l) as [m Hm].
      { eapply Forall_impl; [exact Hhigh|].
        intros y (j & Hj & ->). exists j. split; [lia|done]. }
      rewrite Hm in Hsum. pose proof (pow2_positive k).
      apply Z.mul_reg_l in Hsum; lia.
    + f_equal. apply sum_zero_nil.
      * eapply Forall_impl; [exact Hhigh|].
        intros y (j & _ & ->). apply pow2_positive.
      * rewrite sum_cons in Hsum. lia.
Qed.

(** X2: the denomination split is canonical: every strictly ascending list
    of powers of two is the split of its sum. *)
Theorem get_output_split_canonical (l : list Z) :
  StronglySorted Z.lt l → Forall is_pow2 l →
  _get_output_split (Py.sum l) = l.
Proof.
  intros Hs Hp.
  assert (Hpos : Forall (λ x, 0 < x) l).
  { eapply Forall_impl; [exact Hp|]. intros x [i ->]. apply pow2_positive. }
  destruct (Py.sum l) as [|p|p] eqn:Hsum.
  - by rewrite (sum_zero_nil l Hpos Hsum).
  - rewrite get_output_split_pos. symmetry. apply pows_unique; [done| |].
    + eapply Forall_impl; [exact Hp|]. intros x [i ->]. exists i.
      split; [lia|done].
    + rewrite Hsum. simpl. lia.
  - pose proof (sum_nonneg l Hpos). lia.
Qed.

Lemma get_output_split_canonical_witness :
  _get_output_split (Py.sum [2; 8; 32]) = [2; 8; 32].
Proof.
  apply get_output_split_canonical.
  - repeat constructor.
  - repeat constructor; [by exists 1%nat|by exists 3%nat|by exists 5%nat].
Defined.

(** ** The helpers of [LedgerAPI] *)

Section ledger_helpers.
Context `{Externals}.

(** X3: [_construct_outputs] on lists of different lengths raises its
    assertion before anything is blinded: the world is unchanged. *)
Theorem construct_outputs_mismatch (amounts : list Z) (secrets : list string)
  (w : World) :
  length amounts ≠ length secrets →
  ∃ msg, LedgerAPI._construct_outputs amounts secrets w
         = (w, Raise (AssertionError msg)).
Proof.
  intros Hne. unfold LedgerAPI._construct_outputs.
  rewrite bool_decide_eq_false_2 by done. by eexists.
Qed.

Lemma blind_outputs_lookup (k0 : nat) (secrets : list string)
  (amounts : list Z) (i : nat) (s : string) (a : Z) :
  secrets !! i = Some s → amounts !! i = Some a →
  blind_outputs k0 secrets amounts !! i
  = Some (mkBlindedMessage a (serialize_hex (step1_alice s (k0 + i)%nat).1),
          (step1_alice s (k0 + i)%nat).2).
Proof.
  revert k0 amounts i.
  induction secrets as [|s0 secrets IH]; intros k0 [|a0 amounts] [|i] Hs Ha;
    simplify_eq/=.
  - by rewrite Nat.add_0_r.
  - rewrite (IH (S k0) amounts i) by done.
    by replace (S k0 + i)%nat with (k0 + S i)%nat by lia.
Qed.

(** X4: on lists of equal length [_construct_outputs] returns one payload
    and one blinding factor per amount, in order: the [i]-th payload carries
    the [i]-th amount and the point blinded from the [i]-th secret at the
    [i]-th next call of [step1_alice], whose factor is the [i]-th of [rs].
    Only the blinding rank of the world moves. *)
Theorem construct_outputs_positional (amounts : list Z)
  (secrets : list string) (w : World) :
  length amounts = length secrets →
  ∃ payloads rs,
    LedgerAPI._construct_outputs amounts secrets w
    = (drawn 0 (length amounts) w, Ok (payloads, rs))
    ∧ map bm_amount payloads = amounts
    ∧ length rs = length amounts
    ∧ ∀ i s a,
        secrets !! i = Some s → amounts !! i = Some a →
        payloads !! i
        = Some (mkBlindedMessage a
                  (serialize_hex (step1_alice s (n_blindings w + i)%nat).1))
        ∧ rs !! i = Some (step1_alice s (n_blindings w + i)%nat).2.
Proof.
  intros Hlen. eexists _, _. split; [by apply construct_outputs_run|].
  split; [by apply blind_outputs_amounts|]. split.
  - rewrite length_fmap. by apply blind_outputs_length.
  - intros i s a Hs Ha. rewrite !list_lookup_fmap.
    by rewrite (blind_outputs_lookup _ _ _ i s a).
Qed.

Lemma Forall_exists_Forall2 {A B} (R : A → B → Prop) (l : list A) :
  Forall (λ x, ∃ y, R x y) l → ∃ k, Forall2 R l k.
Proof.
  induction 1 as [|x l [y Hy] _ [k Hk]]; [by exists []|].
  exists (y :: k). by constructor.
Qed.

Lemma zip3_elem (promises : list BlindedSignature) (secrets : list string)
  (rs : list PrivateKey) (promise : BlindedSignature) (s : string)
  (r : PrivateKey) :
  (promise, s, r) ∈ zip (zip promises secrets) rs → promise ∈ promises.
Proof.
  intros (i & Hi)%list_elem_of_lookup_1.
  apply lookup_zip_Some in Hi as [Hi _].
  apply lookup_zip_Some in Hi as [Hi _].
  by eapply list_elem_of_lookup_2.
Qed.

Lemma deref_allocated_old (ps : list Proof) (w : World) (r : ref) :
  (r < length (heap w))%nat → deref (allocated ps w) r = deref w r.
Proof. intros Hr. unfold deref, allocated. simpl. by rewrite lookup_app_l. Qed.

Lemma deref_allocated_new (ps : list Proof) (w : World) (i : nat) (p : Proof) :
  ps !! i = Some p → deref (allocated ps w) (length (heap w) + i)%nat = p.
Proof.
  intros Hp. unfold deref, allocated. simpl.
  rewrite lookup_app_r by lia.
  replace (length (heap w) + i - length (heap w))%nat with i by lia.
  by rewrite Hp.
Qed.

(** X5: when every promise is a point whose amount has a key,
    [_construct_proofs] returns one new object per triple of the [zip], so
    as many as the shortest of its three lists; the [i]-th object has the
    amount of the [i]-th promise, the [i]-th secret, the point unblinded
    with the [i]-th factor and the key of that amount, and is not reserved;
    the objects that were there are untouched. *)
Theorem construct_proofs_positional (promises : list BlindedSignature)
  (secrets : list string) (rs : list PrivateKey) (w : World) :
  unblindable (self_keys w) promises →
  ∃ refs w',
    LedgerAPI._construct_proofs promises secrets rs w = (w', Ok refs)
    ∧ refs = seq (length (heap w)) (length refs)
    ∧ length refs
      = (length promises `min` (length secrets `min` length rs))%nat
    ∧ (∀ r, (r < length (heap w))%nat → deref w' r = deref w r)
    ∧ ∀ i promise s r,
        promises !! i = Some promise → secrets !! i = Some s →
        rs !! i = Some r →
        ∃ P K,
          PublicKey_fromhex (C_ promise) = Some P
          ∧ self_keys w !! bs_amount promise = Some K
          ∧ deref w' (length (heap w) + i)%nat
            = new_Proof (bs_amount promise)
                (serialize_hex (step3_alice P r K)) s.
Proof.
  intros Hub.
  destruct (Forall_exists_Forall2
              (λ x p, unblind (self_keys w) x = Some p)
              (zip (zip promises secrets) rs)) as [ps HF].
  { apply Forall_forall. intros [[promise s] r] Hin.
    apply zip3_elem in Hin. unfold unblindable in Hub.
    rewrite Forall_forall in Hub.
    destruct (Hub promise Hin) as [[P HP] [K HK]].
    unfold unblind. rewrite HP, HK. by eexists. }
  exists (seq (length (heap w)) (length ps)), (allocated ps w).
  split; [by apply construct_proofs_ok|].
  rewrite length_seq. split; [done|]. split.
  { apply Forall2_length in HF. rewrite !length_zip in HF. lia. }
  split; [intros r Hr; by apply deref_allocated_old|].
  intros i promise s r Hp Hs Hr.
  assert (zip (zip promises secrets) rs !! i = Some (promise, s, r)) as Hz.
  { apply lookup_zip_Some. split; [|done]. by apply lookup_zip_Some. }
  destruct (Forall2_lookup_l _ _ _ _ _ HF Hz) as (p & Hps & Hun).
  unfold unblind in Hun.
  destruct (PublicKey_fromhex (C_ promise)) as [P|]; [|done].
  destruct (self_keys w !! bs_amount promise) as [K|]; [|done].
  injection Hun as <-. exists P, K. split; [done|]. split; [done|].
  by apply deref_allocated_new.
Qed.



(** X7: [_check_used_secrets] never changes the world; it returns exactly
    when no secret of the list is known to the store, and otherwise raises
    for the first secret of the list that is. *)
Theorem check_used_secrets_outcome (secrets : list string) (w : World) :
  (LedgerAPI._check_used_secrets secrets w).1 = w
  ∧ ((LedgerAPI._check_used_secrets secrets w).2 = Ok tt
     ↔ Forall (λ s, crud.secret_used s (self_db w) = false) secrets)
  ∧ ∀ e, (LedgerAPI._check_used_secrets secrets w).2 = Raise e →
      ∃ before s after,
        secrets = before ++ s :: after
        ∧ Forall (λ s, crud.secret_used s (self_db w) = false) before
        ∧ crud.secret_used s (self_db w) = true
        ∧ e = Exception ("secret already used: " +:+ s).
Proof.
  rewrite check_used_secrets_run. simpl. split; [done|]. split.
  - rewrite <- first_used_None. by destruct (first_used _ _).
  - intros e. unfold first_used.
    induction secrets as [|s l IH]; simpl; [done|].
    destruct (crud.secret_used s (self_db w)) eqn:Hs.
    + intros [= <-]. by exists [], s, l.
    + intros He. destruct (IH He) as (before & s' & after & -> & ? & ? & ?).
      exists (s :: before), s', after. repeat split; try done.
      by constructor.
Qed.

Lemma chars_inj (s1 s2 : string) :
  list_ascii_of_string s1 = list_ascii_of_string s2 → s1 = s2.
Proof.
  intros Heq.
  by rewrite <- (string_of_list_ascii_of_string s1),
    <- (string_of_list_ascii_of_string s2), Heq.
Qed.

Lemma str_app_inv_tail (a b c : string) : a +:+ c = b +:+ c → a = b.
Proof.
  intros Heq. apply chars_inj.
  apply (f_equal list_ascii_of_string) in Heq.
  rewrite !chars_app in Heq. by apply app_inv_tail in Heq.
Qed.

(** X8: for a base that does not split in two parts on the marker,
    [generate_secrets] draws nothing and its [n] secrets are pairwise
    distinct; for [n ≤ 0] it returns the empty list whatever the base. *)
Theorem generate_secrets_plain_distinct (b : string) (n : Z) (w : World) :
  (length (Py.split b "P2SH:") ≠ 2%nat →
   ∃ l, LedgerAPI.generate_secrets b n w = (w, Ok l)
        ∧ length l = Z.to_nat n
        ∧ NoDup l)
  ∧ (n ≤ 0 → LedgerAPI.generate_secrets b n w = (w, Ok [])).
Proof.
  unfold LedgerAPI.generate_secrets, Py.range. split.
  - intros Hparts. rewrite bool_decide_eq_false_2 by done.
    eexists. split; [done|]. split; [by rewrite length_map, length_seq|].
    apply NoDup_fmap_2_strong; [|apply NoDup_seq].
    intros i j _ _ Heq.
    change (pretty i +:+ ":" +:+ b) with (pretty i +:+ (":" +:+ b)) in Heq.
    apply str_app_inv_tail in Heq. by apply (inj pretty) in Heq.
  - intros Hn. replace (Z.to_nat n) with 0%nat by lia. simpl.
    by case_bool_decide.
Qed.

End ledger_helpers.

(** ** Outcomes of [mint] and [split] *)

Section outcomes.
Context `{Externals}.

Lemma unblind_Some (keys : gmap Z PublicKey) (promise : BlindedSignature)
  (s : string) (r : PrivateKey) (p : Proof) :
  unblind keys (promise, s, r) = Some p →
  secret p = s ∧ amount p = bs_amount promise ∧ reserved p = false.
Proof.
  unfold unblind.
  destruct (PublicKey_fromhex _); [|done]. destruct (keys !! _); [|done].
  by intros [= <-].
Qed.

Lemma unblind_secrets (keys : gmap Z PublicKey)
  (promises : list BlindedSignature) (secrets : list string)
  (rs : list PrivateKey) (ps : list Proof) :
  Forall2 (λ x p, unblind keys x = Some p) (zip (zip promises secrets) rs) ps →
  Forall (λ p, secret p ∈ secrets ∧ reserved p = false) ps.
Proof.
  intros HF. apply Forall_forall. intros p Hp.
  apply list_elem_of_lookup_1 in Hp as [i Hi].
  destruct (Forall2_lookup_r _ _ _ _ _ HF Hi) as ([[promise s] r] & Hz & Hun).
  apply unblind_Some in Hun as (-> & _ & ?).
  apply lookup_zip_Some in Hz as [Hz _].
  apply lookup_zip_Some in Hz as [_ Hz].
  split; [by eapply list_elem_of_lookup_2|done].
Qed.

(** A returning [LedgerAPI.split]: what it left in the world. *)
Lemma ledger_split_ok_inv (proofs : list ref) (amt : Z)
  (scnd : option string) (w w' : World) (frst sc : list ref) :
  LedgerAPI.split proofs amt scnd w = (w', Ok (frst, sc)) →
  first_used (self_db w) (split_secrets w proofs amt scnd) = None
  ∧ ∃ pk ps,
      w' = allocated (pk ++ ps) (split_posted w proofs amt scnd)
      ∧ frst = seq (length (heap w)) (length pk)
      ∧ sc = seq (length (heap w) + length pk) (length ps)
      ∧ Forall (λ p, secret p ∈ split_secrets w proofs amt scnd
                     ∧ reserved p = false) (pk ++ ps).
Proof.
  rewrite split_run. cbv zeta.
  destruct (first_used _ _) as [s|] eqn:Hused; [done|].
  destruct (mint_post_split _ _ _) as [| |[msg|pf pss]]; try done.
  intros Hrun. split; [done|].
  apply bind_inv in Hrun as [(w1 & a & H1 & Hrest)|(e & H1 & ?)]; [|done].
  apply construct_proofs_inv in H1 as (pk & -> & Hok1).
  destruct (Hok1 a eq_refl) as [-> HF1].
  apply bind_inv in Hrest as [(w2 & b & H2 & Hret)|(e & H2 & ?)]; [|done].
  apply construct_proofs_inv in H2 as (ps & -> & Hok2).
  destruct (Hok2 b eq_refl) as [-> HF2].
  injection Hret as <- <- <-. exists pk, ps.
  rewrite allocated_allocated. split; [done|]. split; [done|].
  split; [simpl; by rewrite length_app|].
  apply unblind_secrets in HF1, HF2. apply Forall_app. split.
  - eapply Forall_impl; [exact HF1|]. intros p [Hp ?]. split; [|done].
    by apply (subseteq_take (length pf)).
  - eapply Forall_impl; [exact HF2|]. intros p [Hp ?]. split; [|done].
    by apply (subseteq_drop (length pf)).
Qed.

(** Whatever the outcome, [LedgerAPI.mint] writes nothing but new objects
    and, at most, its one request. *)
Lemma ledger_mint_inv (amounts : list Z) (payment_hash : option string)
  (w w' : World) (res : Result (list ref)) :
  LedgerAPI.mint amounts payment_hash w = (w', res) →
  let secrets := fresh_secrets (n_secrets w) (length amounts) in
  let outs := blind_outputs (n_blindings w) secrets amounts in
  (w' = drawn (length amounts) 0 w ∧ ∃ e, res = Raise e)
  ∨ (first_used (self_db w) secrets = None
     ∧ ∃ ps, w' = allocated ps
                    (logged [POST_mint outs.*1 payment_hash]
                       (drawn (length amounts) (length amounts) w))
             ∧ ∀ refs, res = Ok refs →
                 refs = seq (length (heap w)) (length ps)
                 ∧ Forall (λ p, secret p ∈ secrets ∧ reserved p = false) ps
                 ∧ (length ps ≤ length amounts)%nat).
Proof.
  rewrite mint_run. cbv zeta.
  destruct (first_used _ _) as [s|] eqn:Hused.
  - intros [= <- <-]. left. split; [done|]. by eexists.
  - intros Hrun. right. split; [done|].
    destruct (mint_post_mint _ _) as [| |[msg|promises]];
      try (injection Hrun as <- <-; exists []; by rewrite allocated_nil).
    pose proof Hrun as Hrun'.
    apply construct_proofs_inv in Hrun as (ps & -> & Hok).
    exists ps. split; [done|]. intros refs ->.
    destruct (Hok refs eq_refl) as [-> HF]. split; [done|].
    split; [by eapply unblind_secrets|].
    apply Forall2_length in HF. rewrite !length_zip in HF.
    rewrite fresh_secrets_length in HF. lia.
Qed.

(** X9: with unused fresh secrets and an answer of the mint that signs the
    requested amounts in order (every signature a point with a key),
    [LedgerAPI.mint] posts one request for those amounts and returns new
    proofs of exactly those amounts, in order, under the fresh secrets in
    order; the store and [self.proofs] are untouched. *)
Theorem ledger_mint_ok (amounts : list Z) (payment_hash : option string)
  (w : World) (promises : list BlindedSignature) :
  let secrets := fresh_secrets (n_secrets w) (length amounts) in
  let outputs := (blind_outputs (n_blindings w) secrets amounts).*1 in
  Forall (λ s, crud.secret_used s (self_db w) = false) secrets →
  mint_post_mint outputs payment_hash = Json (MintPromises promises) →
  map bs_amount promises = amounts →
  unblindable (self_keys w) promises →
  ∃ refs w',
    LedgerAPI.mint amounts payment_hash w = (w', Ok refs)
    ∧ amounts_of w' refs = amounts
    ∧ secrets_of w' refs = secrets
    ∧ trace w' = trace w ++ [POST_mint outputs payment_hash]
    ∧ map bm_amount outputs = amounts
    ∧ self_db w' = self_db w
    ∧ self_proofs w' = self_proofs w.
Proof.
  intros secrets outputs Hfresh Hmint Hamt Hub.
  apply first_used_None in Hfresh.
  assert (length promises = length amounts) as Hlp
    by (by rewrite <- Hamt, length_map).
  destruct (unblind_all (self_keys w) promises secrets
              (blind_outputs (n_blindings w) secrets amounts).*2)
    as (ps & HF & Ha & Hs); [done| | |].
  { unfold secrets. by rewrite fresh_secrets_length. }
  { rewrite length_fmap, blind_outputs_length; [done|].
    unfold secrets. by rewrite fresh_secrets_length. }
  set (w2 := logged [POST_mint outputs payment_hash]
               (drawn (length amounts) (length amounts) w)).
  exists (seq (length (heap w)) (length ps)), (allocated ps w2).
  split.
  { rewrite mint_run. cbv zeta. fold secrets. fold outputs.
    rewrite Hfresh, Hmint.
    exact (construct_proofs_ok promises secrets _ ps w2 HF). }
  pose proof (deref_allocated [] ps [] w2) as Hd.
  simpl in Hd. rewrite Nat.add_0_r, app_nil_r in Hd.
  rewrite amounts_of_deref, secrets_of_deref, Hd, Ha, Hs, Hamt.
  repeat split; try done.
  apply blind_outputs_amounts. unfold secrets.
  by rewrite fresh_secrets_length.
Qed.



End outcomes.

(** ** Accounting *)

Section accounting.
Context `{Externals}.

Lemma sum_Permutation (l k : list Z) : l ≡ₚ k → Py.sum l = Py.sum k.
Proof.
  induction 1 as [|x l k _ IH|x y l|l k m _ IH1 _ IH2];
    rewrite ?sum_cons; lia.
Qed.

Lemma sum_app (l k : list Z) : Py.sum (l ++ k) = Py.sum l + Py.sum k.
Proof.
  induction l as [|x l IH]; simpl; [rewrite sum_nil; lia|].
  rewrite !sum_cons. lia.
Qed.

Lemma NoDup_fmap_inj_on {A B} (f : A → B) (l : list A) (x y : A) :
  NoDup (f <$> l) → x ∈ l → y ∈ l → f x = f y → x = y.
Proof.
  induction l as [|a l IH]; intros Hnd Hx Hy Hf; [by apply elem_of_nil in Hx|].
  rewrite fmap_cons in Hnd. apply NoDup_cons in Hnd as [Ha Hnd].
  apply elem_of_cons in Hx as [->|Hx]; apply elem_of_cons in Hy as [->|Hy].
  - done.
  - destruct Ha. rewrite Hf. by apply list_elem_of_fmap_2.
  - destruct Ha. rewrite <- Hf. by apply list_elem_of_fmap_2.
  - by apply IH.
Qed.

(** References below the top of the heap: the objects a wallet can hold. *)
Lemma amounts_of_allocated (ps : list Proof) (w : World) (l : list ref) :
  Forall (λ p, (p < length (heap w))%nat) l →
  amounts_of (allocated ps w) l = amounts_of w l.
Proof.
  intros Hl. unfold amounts_of. apply map_ext_Forall.
  eapply Forall_impl; [exact Hl|]. intros p Hp. simpl.
  by rewrite deref_allocated_old.
Qed.

Lemma kept_proofs_allocated (ps : list Proof) (w : World) (gone l : list ref) :
  Forall (λ p, (p < length (heap w))%nat) l →
  Forall (λ p, (p < length (heap w))%nat) gone →
  kept_proofs (allocated ps w) gone l = kept_proofs w gone l.
Proof.
  intros Hl Hg. unfold kept_proofs.
  assert (secrets_of (allocated ps w) gone = secrets_of w gone) as ->.
  { unfold secrets_of. apply map_ext_Forall.
    eapply Forall_impl; [exact Hg|]. intros p Hp. simpl.
    by rewrite deref_allocated_old. }
  induction Hl as [|p l Hp _ IH]; [done|].
  rewrite !filter_cons, IH, deref_allocated_old by done. done.
Qed.

(** With pairwise distinct secrets in [l], dropping the proofs whose secret
    is one of [gone]'s drops exactly [gone]. *)
Lemma kept_proofs_sum (w : World) (gone l : list ref) :
  NoDup (secrets_of w l) → NoDup gone → gone ⊆ l →
  Py.sum (amounts_of w (kept_proofs w gone l))
  = Py.sum (amounts_of w l) - Py.sum (amounts_of w gone).
Proof.
  intros Hnd Hg Hsub.
  set (P := λ p, secret (deref w p) ∉ secrets_of w gone).
  assert (Hperm : filter (λ p, ¬ P p) l ≡ₚ gone).
  { apply NoDup_Permutation; [|done|].
    - apply NoDup_filter. by eapply NoDup_fmap_1.
    - intros p. rewrite list_elem_of_filter. unfold P. split.
      + intros [Hp Hin]. apply dec_stable in Hp.
        apply list_elem_of_fmap in Hp as (q & Hq & Hqin).
        assert (p = q) as ->; [|done].
        eapply (NoDup_fmap_inj_on (λ p, secret (deref w p))); eauto.
      + intros Hin. split; [|by apply Hsub].
        intros Hn. apply Hn. unfold secrets_of.
        by apply (list_elem_of_fmap_2 (λ p, secret (deref w p))). }
  pose proof (filter_app_complement P l) as Hall.
  apply (fmap_Permutation (λ p, amount (deref w p))) in Hall, Hperm.
  apply sum_Permutation in Hall, Hperm.
  rewrite fmap_app, sum_app in Hall.
  unfold amounts_of, kept_proofs. fold P.
  change (map ?f ?l) with (f <$> l). lia.
Qed.

Lemma stored_keeps_live (w : World) (l : list ref) (db : crud.Store)
  (s : string) :
  is_Some (crud.live db !! s) →
  is_Some (crud.live
             (foldl (λ db p, crud.store_proof (deref w p) db) db l) !! s).
Proof.
  revert db. induction l as [|p l IH]; intros db Hs; simpl; [done|].
  apply IH. simpl. rewrite lookup_insert. by case_decide.
Qed.

Lemma stored_live (w : World) (l : list ref) (db : crud.Store) (p : ref) :
  p ∈ l →
  is_Some (crud.live
             (foldl (λ db p, crud.store_proof (deref w p) db) db l)
           !! (secret (deref w p))).
Proof.
  revert db. induction l as [|q l IH]; intros db Hin; simpl.
  - by apply elem_of_nil in Hin.
  - apply elem_of_cons in Hin as [->|Hin]; [|by apply IH].
    apply stored_keeps_live. simpl. by rewrite lookup_insert_eq.
Qed.


(** X13: minting the amount [0] never returns: the request is posted with
    no outputs, and whatever the mint answers the call raises, with the
    store and [self.proofs] unchanged. *)
Theorem wallet_mint_zero (payment_hash : option string) (w : World) :
  ∃ w' e,
    Wallet.mint 0 payment_hash w = (w', Raise e)
    ∧ trace w' = trace w ++ [POST_mint [] payment_hash]
    ∧ self_db w' = self_db w
    ∧ self_proofs w' = self_proofs w
    ∧ heap w' = heap w.
Proof.
  rewrite wallet_mint_run, mint_run.
  change (amount_split 0) with (@nil Z). cbv zeta. simpl.
  destruct (mint_post_mint [] payment_hash) as [| |[msg|promises]];
    try (eexists _, _; split; [reflexivity|done]).
  unfold LedgerAPI._construct_proofs.
  rewrite zip_with_nil_r. simpl.
  eexists _, _; split; [reflexivity|done].
Qed.

(** X14: a [Wallet.mint] that returns has extended [self.proofs] by the new
    proofs and stored each of them: the balance has grown by the sum of
    their amounts, which is the minted amount when they carry the amounts
    of its split. *)
Theorem wallet_mint_accounting (amt : Z) (payment_hash : option string)
  (w w' : World) (refs : list ref) :
  Wallet.mint amt payment_hash w = (w', Ok refs) →
  Forall (λ p, (p < length (heap w))%nat) (self_proofs w) →
  self_proofs w' = self_proofs w ++ refs
  ∧ Wallet.balance w' = Wallet.balance w + Py.sum (amounts_of w' refs)
  ∧ Forall (λ p, is_Some (crud.live (self_db w')
                          !! (secret (deref w' p)))) refs
  ∧ (0 ≤ amt → amounts_of w' refs = amount_split amt →
     Wallet.balance w' = Wallet.balance w + amt).
Proof.
  rewrite wallet_mint_run.
  destruct (LedgerAPI.mint _ _ w) as [w1 res] eqn:Hrun.
  apply ledger_mint_inv in Hrun as [[_ [e ->]]|[_ (ps & -> & _)]]; [done|].
  destruct res as [[|r0 refs0]|?]; try done. intros [= <- <-] Hvalid.
  set (w1 := allocated ps _).
  set (new := r0 :: refs0).
  assert (Hbal : Wallet.balance
                   (with_self_proofs (self_proofs w1 ++ new)
                      (logged [SELF_proofs_extend new] (stored new w1)))
                 = Wallet.balance w + Py.sum (amounts_of w1 new)).
  { unfold Wallet.balance. simpl self_proofs.
    change (amounts_of (with_self_proofs _ _)) with (amounts_of w1).
    unfold amounts_of at 1. rewrite map_app, sum_app. f_equal.
    exact (f_equal Py.sum (amounts_of_allocated ps _ _ Hvalid)). }
  split; [done|]. split; [exact Hbal|]. split.
  - apply Forall_forall. intros p Hp.
    exact (stored_live w1 new (self_db w1) p Hp).
  - intros Hamt Hsplit. etrans; [exact Hbal|]. f_equal.
    etrans; [exact (f_equal Py.sum Hsplit)|].
    by apply get_output_split_sum.
Qed.

(** A returning [Wallet.split]: the world it leaves. *)
Lemma wallet_split_ok_inv (proofs : list ref) (amt : Z)
  (scnd : option string) (w w' : World) (keep send : list ref) :
  Wallet.split proofs amt scnd w = (w', Ok (keep, send)) →
  proofs ≠ []
  ∧ first_used (self_db w) (split_secrets w proofs amt scnd) = None
  ∧ ∃ pk ps,
      w' = split_committed proofs keep send
             (allocated (pk ++ ps) (split_posted w proofs amt scnd))
      ∧ keep = seq (length (heap w)) (length pk)
      ∧ send = seq (length (heap w) + length pk) (length ps)
      ∧ Forall (λ p, secret p ∈ split_secrets w proofs amt scnd
                     ∧ reserved p = false) (pk ++ ps).
Proof.
  rewrite wallet_split_run. destruct proofs as [|p0 proofs]; [done|].
  destruct (LedgerAPI.split (p0 :: proofs) amt scnd w)
    as [w1 [[frst sc]|e]] eqn:Hrun; [|done].
  intros Hret. split; [done|].
  apply ledger_split_ok_inv in Hrun as (Hused & pk & ps & -> & -> & -> & HF).
  split; [done|]. exists pk, ps.
  assert (w' = split_committed (p0 :: proofs)
                 (seq (length (heap w)) (length pk))
                 (seq (length (heap w) + length pk) (length ps))
                 (allocated (pk ++ ps)
                    (split_posted w (p0 :: proofs) amt scnd))
          ∧ keep = seq (length (heap w)) (length pk)
          ∧ send = seq (length (heap w) + length pk) (length ps))
    as (-> & -> & ->); [|done].
  destruct (seq (length (heap w)) (length pk)),
    (seq (length (heap w) + length pk) (length ps));
    by try injection Hret as <- <- <-.
Qed.

(** X15: a [Wallet.split] that returns, on inputs taken without repetition
    from a [self.proofs] whose secrets are pairwise distinct, has replaced
    exactly the inputs by the new piles: the balance is the old one, less
    the inputs, plus the new proofs; so it is unchanged when the new proofs
    sum to the inputs. *)
Theorem wallet_split_accounting (proofs : list ref) (amt : Z)
  (scnd : option string) (w w' : World) (keep send : list ref) :
  Wallet.split proofs amt scnd w = (w', Ok (keep, send)) →
  Forall (λ p, (p < length (heap w))%nat) (self_proofs w) →
  NoDup (secrets_of w (self_proofs w)) →
  NoDup proofs → proofs ⊆ self_proofs w →
  Wallet.balance w'
  = Wallet.balance w - Py.sum (amounts_of w proofs)
    + Py.sum (amounts_of w' (keep ++ send))
  ∧ (Py.sum (amounts_of w' (keep ++ send)) = Py.sum (amounts_of w proofs) →
     Wallet.balance w' = Wallet.balance w).
Proof.
  intros Hrun Hvalid Hnd Hndp Hsub.
  apply wallet_split_ok_inv in Hrun as (_ & _ & pk & ps & -> & _ & _ & _).
  set (w0 := split_posted w proofs amt scnd).
  set (w1 := allocated (pk ++ ps) w0).
  assert (Hvp : Forall (λ p, (p < length (heap w))%nat) proofs).
  { rewrite Forall_forall in Hvalid. apply Forall_forall.
    intros p Hp. by apply Hvalid, Hsub. }
  assert (Hbal : Wallet.balance (split_committed proofs keep send w1)
    = Wallet.balance w - Py.sum (amounts_of w proofs)
      + Py.sum (amounts_of w1 (keep ++ send))).
  { unfold Wallet.balance.
    change (self_proofs (split_committed proofs keep send w1))
      with (kept_proofs w1 proofs (self_proofs w) ++ keep ++ send).
    change (amounts_of (split_committed proofs keep send w1))
      with (amounts_of w1).
    unfold amounts_of at 1. rewrite map_app, sum_app. f_equal.
    pose proof (kept_proofs_allocated (pk ++ ps) w0 proofs (self_proofs w)
                  Hvalid Hvp) as Hk.
    change (kept_proofs w0) with (kept_proofs w) in Hk.
    fold w1 in Hk. rewrite Hk.
    rewrite <- (kept_proofs_sum w proofs (self_proofs w)) by done.
    f_equal.
    refine (amounts_of_allocated (pk ++ ps) w0 _ _).
    eapply Forall_impl.
    - apply Forall_forall. intros p Hp.
      apply list_elem_of_filter in Hp as [_ Hp]. exact Hp.
    - intros p Hp. rewrite Forall_forall in Hvalid. by apply Hvalid. }
  split; [exact Hbal|]. intros Hsame. etrans; [exact Hbal|].
  change (amounts_of (split_committed proofs keep send w1))
    with (amounts_of w1) in Hsame.
  lia.
Qed.

(** X16: after a [Wallet.split] that returns, every input proof has been
    invalidated last: its secret is no longer live in the store and the
    store reports it as used, so it cannot be proposed again. *)
Theorem wallet_split_spends_inputs (proofs : list ref) (amt : Z)
  (scnd : option string) (w w' : World) (keep send : list ref) :
  Wallet.split proofs amt scnd w = (w', Ok (keep, send)) →
  ∀ p, p ∈ proofs →
    crud.live (self_db w') !! (secret (deref w' p)) = None
    ∧ crud.secret_used (secret (deref w' p)) (self_db w') = true.
Proof.
  intros Hrun p Hp.
  apply wallet_split_ok_inv in Hrun as (_ & _ & pk & ps & -> & _ & _ & _).
  set (w1 := allocated (pk ++ ps) _).
  destruct (invalidate_all_dead w1 proofs
              (foldl (λ db p, crud.store_proof (deref w1 p) db) (self_db w1)
                 (keep ++ send)) p Hp) as [Hl Hs].
  split; [exact Hl|].
  unfold crud.secret_used. apply bool_decide_eq_true_2. right. exact Hs.
Qed.


End accounting.

(** * Reservations and balances *)

Section reservations.
Context `{Externals}.

Lemma loop_deref (step : World → ref → World) (f : Proof → Proof) :
  (∀ q, f (f q) = f q) →
  (∀ w p, length (heap (step w p)) = length (heap w)) →
  (∀ w p r, deref (step w p) r
            = if decide (r = p ∧ (p < length (heap w))%nat)
              then f (deref w p) else deref w r) →
  ∀ proofs w r,
    deref (foldl step w proofs) r
    = if decide (r ∈ proofs ∧ (r < length (heap w))%nat)
      then f (deref w r) else deref w r.
Proof.
  intros Hidem Hlen Hstep.
  induction proofs as [|p proofs IH]; intros w r; cbn [foldl].
  - rewrite decide_False; [done|]. by intros [?%elem_of_nil _].
  - rewrite IH, Hlen, !Hstep.
    destruct (decide (r = p)) as [->|Hne].
    + destruct (decide (p < length (heap w))%nat) as [Hlt|Hge].
      * rewrite (decide_True (P := p = p ∧ _)) by done.
        rewrite (decide_True (P := p ∈ p :: proofs ∧ _))
          by (split; [apply elem_of_cons; by left|done]).
        by destruct (decide _).
      * rewrite (decide_False (P := p = p ∧ _)) by (by intros [_ ?]).
        rewrite (decide_False (P := p ∈ p :: proofs ∧ _))
          by (by intros [_ ?]).
        rewrite decide_False; [done|]. by intros [_ ?].
    + rewrite (decide_False (P := r = p ∧ _)) by (by intros [? _]).
      destruct (decide (r ∈ proofs ∧ (r < length (heap w))%nat))
        as [[Hin Hlt]|Hn].
      * rewrite decide_True; [done|].
        split; [apply elem_of_cons; by right|done].
      * rewrite decide_False; [done|].
        intros [[?|?]%elem_of_cons ?]; [done|]. by apply Hn.
Qed.

Lemma reserve_loop_deref (flag : bool) (sid : string) (proofs : list ref)
  (w : World) (r : ref) :
  deref (foldl (reserve_step flag sid) w proofs) r
  = if decide (r ∈ proofs ∧ (r < length (heap w))%nat)
    then mark_reserved (deref w r) else deref w r.
Proof.
  apply (loop_deref (reserve_step flag sid) mark_reserved); [done| |].
  - apply reserve_step_length.
  - apply reserve_step_deref.
Qed.

Lemma reserve_loop_fields (flag : bool) (sid : string) (proofs : list ref)
  (w : World) :
  self_proofs (foldl (reserve_step flag sid) w proofs) = self_proofs w
  ∧ crud.spent (self_db (foldl (reserve_step flag sid) w proofs))
    = crud.spent (self_db w).
Proof.
  revert w. induction proofs as [|p proofs IH]; intros w; simpl; [done|].
  destruct (IH (reserve_step flag sid w p)) as [-> ->]. done.
Qed.

Lemma reserve_loop_db (flag : bool) (sid : string) (proofs : list ref)
  (w : World) (s : string) :
  crud.live (self_db (foldl (reserve_step flag sid) w proofs)) !! s
  = if decide (s ∈ secrets_of w proofs)
    then persist_flag flag sid <$> crud.live (self_db w) !! s
    else crud.live (self_db w) !! s.
Proof.
  revert w. induction proofs as [|p proofs IH]; intros w; cbn [foldl].
  - rewrite decide_False; [done|]. by intros ?%elem_of_nil.
  - rewrite IH.
    assert (secrets_of (reserve_step flag sid w p) proofs
            = secrets_of w proofs) as ->.
    { unfold secrets_of. apply map_ext. intros r.
      rewrite reserve_step_deref. by case_decide as Hd;
        [destruct Hd as [-> _]|]. }
    assert (crud.live (self_db (reserve_step flag sid w p))
            = alter (persist_flag flag sid) (secret (deref w p))
                (crud.live (self_db w))) as ->.
    { unfold reserve_step. simpl.
      change (default _ (<[p:=mark_reserved (deref w p)]> (heap w) !! p))
        with (deref (reserve_step flag sid w p) p).
      rewrite reserve_step_deref. by case_decide. }
    rewrite lookup_alter.
    change (secrets_of w (p :: proofs))
      with (secret (deref w p) :: secrets_of w proofs).
    destruct (decide (secret (deref w p) = s)) as [<-|Hne].
    + rewrite (decide_True (P := _ ∈ _ :: _))
        by (apply elem_of_cons; by left).
      destruct (decide _); [|done].
      by destruct (crud.live (self_db w) !! secret (deref w p)).
    + destruct (decide (s ∈ secrets_of w proofs)) as [Hin|Hn].
      * rewrite decide_True; [done|]. apply elem_of_cons. by right.
      * rewrite decide_False; [done|].
        intros [?|?]%elem_of_cons; [by apply Hne|by apply Hn].
Qed.

(** X18: [set_reserved] writes the flag and one fresh send id on the
    stored record of every secret of the batch, leaving the other fields
    of the record as stored; the records of other secrets are untouched,
    a proof the store does not hold is not inserted, and the history of
    spent secrets is as before. *)
Theorem set_reserved_persists (proofs : list ref) (flag : bool) (w : World) :
  ∃ w', Wallet.set_reserved proofs flag w = (w', Ok tt)
        ∧ (∀ s, crud.live (self_db w') !! s
                = if decide (s ∈ secrets_of w proofs)
                  then persist_flag flag (uuid1 (n_uuids w))
                       <$> crud.live (self_db w) !! s
                  else crud.live (self_db w) !! s)
        ∧ crud.spent (self_db w') = crud.spent (self_db w).
Proof.
  rewrite set_reserved_run. eexists. split; [done|]. split.
  - intros s. by rewrite reserve_loop_db.
  - by rewrite (proj2 (reserve_loop_fields _ _ _ _)).
Qed.

Lemma filter_ext_Forall {A} (P Q : A → Prop) `{∀ x, Decision (P x)}
  `{∀ x, Decision (Q x)} (l : list A) :
  Forall (λ x, P x ↔ Q x) l → filter P l = filter Q l.
Proof.
  induction 1 as [|x l Hx _ IH]; [done|].
  rewrite !filter_cons, IH.
  destruct (decide (P x)) as [HP|HP], (decide (Q x)) as [HQ|HQ];
    try done; [destruct HQ|destruct HP]; by apply Hx.
Qed.

(** X19: [set_reserved] on proofs of the wallet takes them out of the
    available balance and leaves the balance alone: afterwards the
    available balance counts the proofs of [self.proofs] that were
    unreserved and are not in the batch, whatever the flag. *)
Theorem set_reserved_balances (proofs : list ref) (flag : bool) (w : World) :
  Forall (λ p, (p < length (heap w))%nat) proofs →
  ∃ w', Wallet.set_reserved proofs flag w = (w', Ok tt)
        ∧ self_proofs w' = self_proofs w
        ∧ Wallet.balance w' = Wallet.balance w
        ∧ Wallet.available_balance w'
          = Py.sum (amounts_of w
                      (filter (λ p, reserved (deref w p) = false
                                    ∧ (p ∉ proofs))
                         (self_proofs w))).
Proof.
  intros Hvalid. rewrite Forall_forall in Hvalid.
  rewrite set_reserved_run. eexists. split; [done|].
  set (sid := uuid1 (n_uuids w)).
  set (w' := foldl (reserve_step flag sid) (uuid_drawn w) proofs).
  assert (Hsp : self_proofs w' = self_proofs w).
  { unfold w'. by rewrite (proj1 (reserve_loop_fields _ _ _ _)). }
  assert (Hd : ∀ r, deref w' r
    = if decide (r ∈ proofs) then mark_reserved (deref w r) else deref w r).
  { intros r. unfold w'. rewrite reserve_loop_deref.
    change (deref (uuid_drawn w) r) with (deref w r).
    change (heap (uuid_drawn w)) with (heap w).
    destruct (decide (r ∈ proofs)) as [Hin|Hn].
    - rewrite decide_True; [done|]. split; [done|]. by apply Hvalid.
    - rewrite decide_False; [done|]. by intros [? _]. }
  assert (Ha : ∀ l, amounts_of w' l = amounts_of w l).
  { intros l. unfold amounts_of. apply map_ext. intros r.
    rewrite Hd. by case_decide. }
  split; [done|]. split.
  - unfold Wallet.balance. by rewrite Hsp, Ha.
  - unfold Wallet.available_balance. rewrite Hsp, Ha. do 2 f_equal.
    apply filter_ext_Forall, Forall_forall. intros r _.
    rewrite Hd. destruct (decide _) as [Hin|Hn]; simpl; split;
      [done|by intros [_ ?]|by intros ?|by intros [? _]].
Qed.

(** X20: the balance is the available balance plus the amounts of the
    reserved proofs of [self.proofs]: a reserved proof still counts
    towards the balance. *)
Theorem balance_decomposition (w : World) :
  Wallet.balance w
  = Wallet.available_balance w
    + Py.sum (amounts_of w
                (filter (λ p, reserved (deref w p) = true) (self_proofs w))).
Proof.
  unfold Wallet.balance, Wallet.available_balance.
  pose proof (filter_app_complement
                (λ p, reserved (deref w p) = false) (self_proofs w)) as Hp.
  apply (fmap_Permutation (λ p, amount (deref w p))) in Hp.
  apply sum_Permutation in Hp. rewrite fmap_app, sum_app in Hp.
  unfold amounts_of. change (map ?f ?l) with (f <$> l).
  rewrite <- Hp. f_equal. do 2 f_equal.
  apply filter_ext_Forall, Forall_forall. intros r _.
  destruct (reserved (deref w r)); naive_solver.
Qed.

End reservations.

(** * Redeeming and sending *)

Section redemption.
Context `{Externals}.

Lemma lock_step_length (sc : P2SHScript) (w : World) (p : ref) :
  length (heap (lock_step sc w p)) = length (heap w).
Proof. unfold lock_step. simpl. apply length_insert. Qed.

Lemma lock_step_deref (sc : P2SHScript) (w : World) (p r : ref) :
  deref (lock_step sc w p) r
  = if decide (r = p ∧ (p < length (heap w))%nat)
    then attach_script sc (deref w p) else deref w r.
Proof.
  unfold lock_step, deref. simpl.
  destruct (decide (r = p ∧ (p < length (heap w))%nat)) as [[-> Hlt]|Hn].
  - by rewrite list_lookup_insert_eq.
  - destruct (decide (r = p)) as [->|Hne].
    + rewrite list_insert_ge; [done|]. lia.
    + by rewrite list_lookup_insert_ne.
Qed.

Lemma lock_loop_deref (sc : P2SHScript) (proofs : list ref) (w : World)
  (r : ref) :
  deref (foldl (lock_step sc) w proofs) r
  = if decide (r ∈ proofs ∧ (r < length (heap w))%nat)
    then attach_script sc (deref w r) else deref w r.
Proof.
  apply (loop_deref (lock_step sc) (attach_script sc)); [done| |].
  - apply lock_step_length.
  - apply lock_step_deref.
Qed.

(** The loop of [redeem] touches the heap only. *)
Lemma lock_loop_fields (sc : P2SHScript) (proofs : list ref) (w : World) :
  foldl (lock_step sc) w proofs
  = mkWorld (heap (foldl (lock_step sc) w proofs)) (self_proofs w)
      (self_keys w) (self_db w) (trace w)
      (n_secrets w) (n_blindings w) (n_uuids w)
  ∧ length (heap (foldl (lock_step sc) w proofs)) = length (heap w).
Proof.
  revert w. induction proofs as [|p proofs IH]; intros w; cbn [foldl].
  - by destruct w.
  - destruct (IH (lock_step sc w p)) as [Heq Hlen].
    split; [exact Heq|]. by rewrite Hlen, lock_step_length.
Qed.

Lemma lock_loop_run (sc : P2SHScript) (proofs : list ref) (w : World) :
  for_each
    (λ p, let* w := get in
          let q := deref w p in
          store p (mkProof (amount q) (secret q) (C q) (id q) (Some sc)
                     (reserved q) (send_id q)))
    proofs w
  = (foldl (lock_step sc) w proofs, Ok tt).
Proof.
  revert w. induction proofs as [|p proofs IH]; intros w; simpl; [done|].
  unfold bind at 1. unfold bind at 1, get at 1. unfold store at 1.
  by rewrite IH.
Qed.

Lemma script_attached_amounts (a b : option string) (proofs l : list ref)
  (w : World) :
  amounts_of (script_attached a b proofs w) l = amounts_of w l.
Proof.
  unfold script_attached. destruct (truthy a && truthy b); [|done].
  unfold amounts_of. apply map_ext. intros r.
  rewrite lock_loop_deref. by destruct (decide _).
Qed.

Lemma redeem_run (proofs : list ref) (a b : option string) (w : World) :
  Wallet.redeem proofs a b w
  = Wallet.split proofs (Py.sum (amounts_of w proofs)) None
      (script_attached a b proofs w).
Proof.
  unfold Wallet.redeem.
  destruct a as [[|c1 s1]|], b as [[|c2 s2]|]; try reflexivity.
  unfold bind at 1. rewrite lock_loop_run. unfold bind at 1, get at 1.
  change (foldl _ w proofs)
    with (script_attached (Some (String c1 s1)) (Some (String c2 s2))
            proofs w).
  by rewrite script_attached_amounts.
Qed.

(** X21: [redeem] is [split] of the whole total of the inputs, with no
    second secret.  Before the split the unlock script is attached to
    every input, but only when the script and the signature are both
    non-empty strings: a lock with one half missing or empty is dropped
    without an error and no input is touched.  Attaching changes the
    script field of the inputs and nothing else in the world. *)
Theorem redeem_as_split (proofs : list ref) (a b : option string)
  (w : World) :
  let wl := script_attached a b proofs w in
  Wallet.redeem proofs a b w
  = Wallet.split proofs (Py.sum (amounts_of w proofs)) None wl
  ∧ (∀ r, deref wl r
          = if decide (truthy a && truthy b
                       ∧ r ∈ proofs ∧ (r < length (heap w))%nat)
            then attach_script
                   (mkP2SHScript (default "" a) (default "" b) None)
                   (deref w r)
            else deref w r)
  ∧ self_proofs wl = self_proofs w
  ∧ self_db wl = self_db w
  ∧ trace wl = trace w.
Proof.
  intros wl. split; [apply redeem_run|].
  unfold wl, script_attached.
  destruct (truthy a && truthy b) eqn:Hab.
  - destruct (lock_loop_fields
                (mkP2SHScript (default "" a) (default "" b) None) proofs w)
      as [Heq _].
    split; [|by rewrite Heq].
    intros r. rewrite lock_loop_deref.
    destruct (decide (r ∈ proofs ∧ (r < length (heap w))%nat)) as [Hr|Hr].
    + by rewrite decide_True.
    + rewrite decide_False; [done|]. by intros [_ ?].
  - split; [|done]. intros r. rewrite decide_False; [done|].
    by intros [? _].
Qed.

Lemma script_attached_fields (a b : option string) (proofs : list ref)
  (w : World) :
  script_attached a b proofs w
  = mkWorld (heap (script_attached a b proofs w)) (self_proofs w)
      (self_keys w) (self_db w) (trace w)
      (n_secrets w) (n_blindings w) (n_uuids w)
  ∧ length (heap (script_attached a b proofs w)) = length (heap w).
Proof.
  unfold script_attached. destruct (truthy a && truthy b).
  - apply lock_loop_fields.
  - by destruct w.
Qed.

(** X22: [redeem] hands the whole value over to fresh secrets.  For inputs
    of positive total, with unused fresh secrets and an answer of the mint
    that signs the submitted outputs in order, it returns an empty keep
    pile and a send pile whose amounts are the binary decomposition of the
    total of the inputs, under the freshly drawn secrets. *)
Theorem redeem_receives (proofs : list ref) (a b : option string)
  (w : World) (fst snd : list BlindedSignature) :
  let wl := script_attached a b proofs w in
  let total := Py.sum (amounts_of w proofs) in
  let secrets :=
    fresh_secrets (n_secrets w) (length (amount_split total)) in
  0 < total →
  first_used (self_db w) secrets = None →
  mint_post_split (map (deref wl) proofs) total
    (split_outputs wl proofs total None).*1 = Json (SplitPromises fst snd) →
  positional fst snd (split_outputs wl proofs total None).*1 0 →
  unblindable (self_keys w) (fst ++ snd) →
  ∃ w' send,
    Wallet.redeem proofs a b w = (w', Ok ([], send))
    ∧ amounts_of w' send = amount_split total
    ∧ Py.sum (amounts_of w' send) = total
    ∧ secrets_of w' send = secrets.
Proof.
  intros wl total secrets Hpos Hunused Hmint Hposl Hub.
  destruct (script_attached_fields a b proofs w) as [Hwl Hlen].
  fold wl in Hwl, Hlen.
  assert (Hamt : Py.sum (amounts_of wl proofs) = total).
  { unfold wl. by rewrite script_attached_amounts. }
  assert (Hsec : split_secrets wl proofs total None = secrets).
  { unfold split_secrets. cbv zeta. rewrite Hamt, Z.sub_diag.
    rewrite Hwl. reflexivity. }
  destruct (ledger_split_ok proofs total None wl fst snd)
    as (pk & ps & Hrun & Hak & Has & Hs).
  { rewrite Hsec, Hwl. exact Hunused. }
  { exact Hmint. }
  { rewrite Hamt, Z.sub_diag. exact Hposl. }
  { rewrite Hwl. exact Hub. }
  rewrite Hamt, Z.sub_diag in Hak. apply map_eq_nil in Hak as ->.
  rewrite Hsec in Hs. simpl in Hrun, Hs. rewrite Nat.add_0_r in Hrun.
  assert (Hne : ps ≠ []).
  { intros ->. simpl in Has.
    pose proof (get_output_split_sum total) as Hsum.
    unfold amount_split in Has. rewrite <- Has in Hsum.
    rewrite sum_nil in Hsum. lia. }
  set (w1 := allocated ps (split_posted wl proofs total None)) in *.
  set (send := seq (length (heap wl)) (length ps)) in *.
  assert (Hds : map (deref w1) send = ps).
  { pose proof (deref_allocated [] ps [] (split_posted wl proofs total None))
      as Hd. simpl in Hd. by rewrite Nat.add_0_r, app_nil_r in Hd. }
  exists (split_committed proofs [] send w1), send. split.
  { rewrite redeem_run. fold wl. fold total.
    rewrite wallet_split_run, Hrun.
    destruct proofs as [|p0 proofs]; [by vm_compute in Hpos|].
    unfold send. destruct ps; [done|]. reflexivity. }
  rewrite amounts_of_deref, secrets_of_deref.
  change (deref (split_committed proofs [] send w1)) with (deref w1).
  rewrite Hds, Has, Hs. repeat split; try done.
  apply get_output_split_sum. lia.
Qed.

Lemma wallet_split_requests (pile : list ref) (amt : Z)
  (scnd : option string) (w w' : World)
  (res : Result (list ref * list ref)) :
  Wallet.split pile amt scnd w = (w', res) →
  ∃ events,
    trace w' = trace w ++ events
    ∧ ∀ ps a o, POST_split ps a o ∈ events →
                ps = map (deref w) pile ∧ a = amt.
Proof.
  rewrite wallet_split_run. destruct pile as [|p0 pile].
  { intros [= <- <-]. exists []. rewrite app_nil_r. split; [done|].
    by intros ps a o ?%elem_of_nil. }
  destruct (LedgerAPI.split (p0 :: pile) amt scnd w) as [w1 r1] eqn:Hrun.
  apply ledger_split_inv in Hrun as [[-> (s & -> & _)]|[_ [ps ->]]].
  { intros [= <- <-]. exists []. simpl. rewrite app_nil_r.
    split; [done|]. by intros ps a o ?%elem_of_nil. }
  set (post := POST_split (map (deref w) (p0 :: pile)) amt
                 (split_outputs w (p0 :: pile) amt scnd).*1).
  assert (Hone : ∀ ps0 a o, POST_split ps0 a o ∈ [post] →
                 ps0 = map (deref w) (p0 :: pile) ∧ a = amt).
  { intros ps0 a o Hin%list_elem_of_singleton. by injection Hin as -> -> _. }
  destruct r1 as [[frst sc]|e].
  - assert (∀ X Y : World * Result (list ref * list ref),
      match frst, sc with [], [] => X | _, _ => Y end
      = if bool_decide (frst = [] ∧ sc = []) then X else Y) as ->.
    { intros X Y. destruct frst, sc; try done. }
    case_bool_decide.
    + intros [= <- <-]. exists [post]. split; [done|]. exact Hone.
    + intros [= <- <-]. rewrite trace_split_committed.
      eexists (post :: _). split.
      { simpl trace. rewrite <- app_assoc. reflexivity. }
      intros ps0 a o [Hin|Hin]%elem_of_cons.
      * apply (Hone ps0 a o). by apply list_elem_of_singleton.
      * exfalso. revert Hin.
        rewrite !elem_of_app, !elem_of_cons, !list_elem_of_fmap.
        intros [[?|[?|?%elem_of_nil]]|[(? & ? & ?)|(? & ? & ?)]]; done.
  - intros [= <- <-]. exists [post]. split; [done|]. exact Hone.
Qed.

(** X23: [split_to_send] never submits a reserved proof: whatever the
    outcome, every split request it adds to the trace carries exactly the
    proofs of its argument that are not reserved, in order, with the
    amount asked for. *)
Theorem split_to_send_unreserved (proofs : list ref) (amt : Z)
  (scnd : option string) (w w' : World)
  (res : Result (list ref * list ref)) :
  Wallet.split_to_send proofs amt scnd w = (w', res) →
  ∃ events,
    trace w' = trace w ++ events
    ∧ ∀ ps a o, POST_split ps a o ∈ events →
        Forall (λ q, reserved q = false) ps
        ∧ ps = map (deref w)
                 (filter (λ p, reserved (deref w p) = false) proofs)
        ∧ a = amt.
Proof.
  unfold Wallet.split_to_send. unfold bind at 1, get at 1.
  case_bool_decide.
  - intros [= <- <-]. exists []. rewrite app_nil_r. split; [done|].
    by intros ps a o ?%elem_of_nil.
  - intros Hrun. apply wallet_split_requests in Hrun as (events & Htr & Hev).
    exists events. split; [done|]. intros ps a o Hin.
    destruct (Hev ps a o Hin) as [-> ->]. split; [|done].
    apply Forall_fmap, Forall_forall. intros p Hp.
    by apply list_elem_of_filter in Hp as [Hp _].
Qed.

End redemption.

(** * Reconciling with the mint *)

Section reconciliation.
Context `{Externals}.

Lemma reported_spent_spendable (proofs : list ref) (items : CheckJson) :
  Forall (λ it, it.2 = true) items → reported_spent proofs items = Some [].
Proof.
  induction 1 as [|[idx b] items Hb _ IH]; [done|].
  simpl in Hb. subst b. exact IH.
Qed.

Lemma kept_proofs_nil (w : World) (l : list ref) : kept_proofs w [] l = l.
Proof.
  unfold kept_proofs. induction l as [|p l IH]; [done|].
  rewrite filter_cons, IH. destruct (decide _) as [|Hn]; [done|].
  destruct Hn. apply not_elem_of_nil.
Qed.

(** X24: when the mint reports every listed proof as spendable,
    [invalidate] changes neither the store nor the objects, and assigns to
    [self.proofs] the list it already holds; the indices of spendable
    entries are never looked up, so they may be out of range. *)
Theorem invalidate_all_spendable (proofs : list ref) (items : CheckJson)
  (w : World) :
  mint_post_check (map (deref w) proofs) = Json items →
  Forall (λ it, it.2 = true) items →
  ∃ w', Wallet.invalidate proofs w = (w', Ok tt)
        ∧ self_proofs w' = self_proofs w
        ∧ self_db w' = self_db w
        ∧ heap w' = heap w
        ∧ trace w' = trace w ++ [POST_check (map (deref w) proofs);
                                 SELF_proofs_assign (self_proofs w)].
Proof.
  intros Hcheck Hall. apply (reported_spent_spendable proofs) in Hall.
  rewrite (invalidate_run proofs [] items w Hcheck Hall).
  eexists. split; [done|]. unfold reconciled. rewrite kept_proofs_nil.
  simpl. rewrite app_nil_r, <- app_assoc. done.
Qed.

Lemma py_index_out {A} (l : list A) (i : Z) :
  i < - Z.of_nat (length l) ∨ Z.of_nat (length l) ≤ i →
  py_index l i = None.
Proof.
  intros Hi. unfold py_index.
  destruct (0 <=? i) eqn:H0.
  - apply Z.leb_le in H0. apply lookup_ge_None_2. lia.
  - apply Z.leb_gt in H0.
    destruct (- Z.of_nat (length l) <=? i) eqn:H1; [|done].
    apply Z.leb_le in H1. lia.
Qed.

Lemma invalidate_loop_oob (proofs : list ref) (before after : CheckJson)
  (idx : Z) (acc gone : list ref) (w : World) :
  reported_spent proofs before = Some gone →
  py_index proofs idx = None →
  for_acc
    (λ invalidated_proofs '(idx, spendable),
       if negb spendable then
         match py_index proofs idx with
         | None => raise IndexError
         | Some p =>
             db_invalidate_proof p;;
             ret (invalidated_proofs ++ [p])
         end
       else ret invalidated_proofs)
    acc (before ++ (idx, false) :: after) w
  = (invalidated gone w, Raise IndexError).
Proof.
  intros Hrep Hidx. revert acc gone w Hrep.
  induction before as [|[i spendable] before IH]; intros acc gone w Hrep;
    simpl in Hrep.
  - injection Hrep as <-. simpl. unfold bind at 1. rewrite Hidx.
    unfold raise, invalidated. by rewrite db_applied_nil.
  - simpl for_acc. unfold bind at 1. destruct spendable.
    + change (negb true) with false. cbv iota. unfold ret at 1.
      by apply IH.
    + change (negb false) with true. cbv iota.
      destruct (py_index proofs i) as [p|]; [|done].
      destruct (reported_spent proofs before) as [gone'|] eqn:Hrest;
        [|done].
      injection Hrep as <-.
      unfold bind at 1. rewrite db_invalidate_run.
      unfold ret at 1. rewrite (IH (acc ++ [p]) gone') by done.
      unfold invalidated. by rewrite db_applied_cons.
Qed.

(** X25: an index of the answer that is out of range for the checked list,
    on an entry reported as spent, makes [invalidate] raise [IndexError] in
    the middle of its loop: the proofs [gone] of the earlier spent entries
    are already invalidated in the store, but [self.proofs] is left as it
    was and still lists them. *)
Theorem invalidate_index_error (proofs : list ref) (before after : CheckJson)
  (idx : Z) (gone : list ref) (w : World) :
  mint_post_check (map (deref w) proofs)
  = Json (before ++ (idx, false) :: after) →
  reported_spent proofs before = Some gone →
  idx < - Z.of_nat (length proofs) ∨ Z.of_nat (length proofs) ≤ idx →
  ∃ w', Wallet.invalidate proofs w = (w', Raise IndexError)
        ∧ self_proofs w' = self_proofs w
        ∧ heap w' = heap w
        ∧ (∀ p, p ∈ gone →
                crud.live (self_db w') !! secret (deref w p) = None
                ∧ secret (deref w p) ∈ crud.spent (self_db w'))
        ∧ (∀ s, (s ∉ secrets_of w gone) →
                crud.live (self_db w') !! s = crud.live (self_db w) !! s).
Proof.
  intros Hcheck Hrep Hidx. apply (py_index_out proofs) in Hidx.
  exists (invalidated gone (logged [POST_check (map (deref w) proofs)] w)).
  split.
  { unfold Wallet.invalidate. unfold bind at 1.
    unfold Wallet.check_spendable, LedgerAPI.check_spendable.
    unfold bind at 1, get at 1. unfold bind at 1, emit at 1.
    rewrite Hcheck. unfold ret at 1.
    unfold bind at 1.
    by rewrite (invalidate_loop_oob proofs before after idx [] gone). }
  split; [done|]. split; [done|]. split.
  - intros p Hp. by apply (invalidate_all_dead w gone (self_db w) p).
  - intros s Hs. by apply (invalidate_others_live w gone (self_db w) s).
Qed.

Lemma ledger_pay_lightning_run (proofs : list ref) (invoice : string)
  (w : World) :
  LedgerAPI.pay_lightning proofs invoice w
  = let posted := logged [POST_melt (map (deref w) proofs) invoice] w in
    match mint_post_melt (map (deref w) proofs) invoice with
    | StatusError => (posted, Raise HTTPError)
    | NotJson => (posted, Raise JSONDecodeError)
    | Json status => (posted, Ok status)
    end.
Proof.
  unfold LedgerAPI.pay_lightning. unfold bind at 1, get at 1.
  unfold bind at 1, emit at 1.
  by destruct (mint_post_melt _ _).
Qed.

(** X26: a paid invoice whose follow-up check fails leaves the wallet
    unreconciled: when the melt answer has [paid = true] and the mint's
    answer to the check is not a JSON body, [pay_lightning] raises after
    both requests, and the heap, [self.proofs] and the store still hold
    the melted proofs as before. *)
Theorem pay_lightning_paid_unreconciled (proofs : list ref)
  (invoice : string) (w : World) (status : MeltJson) :
  mint_post_melt (map (deref w) proofs) invoice = Json status →
  paid status = true →
  (∀ items, mint_post_check (map (deref w) proofs) ≠ Json items) →
  ∃ e, Wallet.pay_lightning proofs invoice w
       = (logged [POST_melt (map (deref w) proofs) invoice;
                  POST_check (map (deref w) proofs)] w,
          Raise e)
       ∧ (e = HTTPError ∨ e = JSONDecodeError).
Proof.
  intros Hmelt Hpaid Hcheck.
  unfold Wallet.pay_lightning. unfold bind at 1.
  rewrite ledger_pay_lightning_run, Hmelt. cbv zeta iota beta.
  rewrite Hpaid. unfold bind at 1.
  unfold Wallet.invalidate. unfold bind at 1.
  unfold Wallet.check_spendable, LedgerAPI.check_spendable.
  unfold bind at 1, get at 1. unfold bind at 1, emit at 1.
  change (map (deref (logged _ w)) proofs) with (map (deref w) proofs).
  destruct (mint_post_check (map (deref w) proofs)) as [| |items] eqn:Hc.
  - exists HTTPError. split; [|by left]. unfold raise. f_equal.
    unfold logged. simpl. by rewrite <- app_assoc.
  - exists JSONDecodeError. split; [|by right]. unfold raise. f_equal.
    unfold logged. simpl. by rewrite <- app_assoc.
  - by destruct (Hcheck items).
Qed.

(** X27: a paid invoice takes the spent inputs off the balance.  When the
    melt answer has [paid = true] and the check reports the proofs [gone]
    as spent, [pay_lightning] returns [True] and, for a [self.proofs] with
    pairwise distinct secrets that holds each of [gone] once, the balance
    has dropped by the sum of their amounts. *)
Theorem pay_lightning_balance (proofs gone : list ref) (invoice : string)
  (w : World) (status : MeltJson) (items : CheckJson) :
  mint_post_melt (map (deref w) proofs) invoice = Json status →
  paid status = true →
  mint_post_check (map (deref w) proofs) = Json items →
  reported_spent proofs items = Some gone →
  NoDup (secrets_of w (self_proofs w)) →
  NoDup gone → gone ⊆ self_proofs w →
  ∃ w', Wallet.pay_lightning proofs invoice w = (w', Ok true)
        ∧ Wallet.balance w'
          = Wallet.balance w - Py.sum (amounts_of w gone).
Proof.
  intros Hmelt Hpaid Hcheck Hrep Hnd Hg Hsub.
  unfold Wallet.pay_lightning. unfold bind at 1.
  rewrite ledger_pay_lightning_run, Hmelt. cbv zeta iota beta.
  rewrite Hpaid. unfold bind at 1.
  set (w1 := logged [POST_melt (map (deref w) proofs) invoice] w).
  rewrite (invalidate_run proofs gone items w1 Hcheck Hrep).
  eexists. split; [done|].
  unfold Wallet.balance, reconciled. simpl self_proofs.
  change (amounts_of (with_self_proofs _ _) ?l) with (amounts_of w l).
  change (kept_proofs w1 gone (self_proofs w))
    with (kept_proofs w gone (self_proofs w)).
  by apply kept_proofs_sum.
Qed.

End reconciliation.

(** * Loading and listing the proofs *)

Section views.
Context `{Externals}.

(** X28: [proof_amounts] lists the amounts of [self.proofs] in ascending
    order: the result is sorted and is a rearrangement of the amounts
    held, so repeated amounts are kept. *)
Theorem proof_amounts_sorted (w : World) :
  Sorted Z.le (Wallet.proof_amounts w)
  ∧ Wallet.proof_amounts w ≡ₚ amounts_of w (self_proofs w).
Proof.
  unfold Wallet.proof_amounts. split.
  - apply (Sorted_fmap amount amount_le Z.le); [done|].
    apply (Sorted_merge_sort amount_le).
  - rewrite amounts_of_deref.
    change (map amount ?l) with (amount <$> l).
    apply fmap_Permutation, merge_sort_Permutation.
Qed.

Lemma alloc_loop_run (ps : list Proof) (w : World) :
  for_list alloc ps w
  = (allocated ps w, Ok (seq (length (heap w)) (length ps))).
Proof.
  revert w. induction ps as [|p ps IH]; intros w; simpl.
  - by rewrite allocated_nil.
  - unfold bind at 1, alloc at 1. unfold bind at 1. rewrite IH.
    unfold ret. simpl. rewrite length_app, Nat.add_1_r. f_equal.
    unfold allocated. simpl. by rewrite <- app_assoc.
Qed.

(** X29: [load_proofs] makes [self.proofs] a fresh copy of the live set
    of the store: the objects held afterwards are the live proofs, under
    new references, so that none of the objects held before is still
    listed; and for a store that files each proof under its own secret
    they have pairwise distinct secrets, which are the live secrets. *)
Theorem load_proofs_mirrors (w : World) :
  well_keyed (self_db w) →
  ∃ w', Wallet.load_proofs w = (w', Ok tt)
        ∧ map (deref w') (self_proofs w') = crud.get_proofs (self_db w)
        ∧ Forall (λ r, (length (heap w) ≤ r)%nat) (self_proofs w')
        ∧ self_db w' = self_db w
        ∧ NoDup (secrets_of w' (self_proofs w'))
        ∧ (∀ s, s ∈ secrets_of w' (self_proofs w')
                ↔ is_Some (crud.live (self_db w) !! s)).
Proof.
  intros Hkeyed. unfold Wallet.load_proofs. unfold bind at 1, get at 1.
  unfold bind at 1. rewrite alloc_loop_run.
  unfold Wallet.assign_self_proofs. unfold bind at 1, emit at 1.
  unfold set_self_proofs. eexists. split; [done|]. simpl self_proofs.
  set (ps := crud.get_proofs (self_db w)).
  assert (Hd : map (deref (allocated ps w)) (seq (length (heap w)) (length ps))
               = ps).
  { pose proof (deref_allocated [] ps [] w) as Hd. simpl in Hd.
    by rewrite Nat.add_0_r, app_nil_r in Hd. }
  assert (Hsec : map secret ps = (map_to_list (crud.live (self_db w))).*1).
  { unfold ps, crud.get_proofs.
    change (map secret ?l) with (secret <$> l). rewrite <- list_fmap_compose.
    apply Forall_fmap_ext_1, Forall_forall. intros [s p] Hsp.
    apply elem_of_map_to_list in Hsp. simpl. by apply Hkeyed in Hsp. }
  split; [exact Hd|]. split.
  { apply Forall_forall. intros r Hr%elem_of_seq. lia. }
  split; [done|].
  rewrite secrets_of_deref.
  change (map (deref _) (seq (length (heap w)) (length ps)))
    with (map (deref (allocated ps w)) (seq (length (heap w)) (length ps))).
  rewrite Hd, Hsec. split.
  - apply NoDup_fst_map_to_list.
  - intros s. rewrite list_elem_of_fmap. split.
    + intros ([s' p] & -> & Hin). apply elem_of_map_to_list in Hin.
      by eexists.
    + intros [p Hp]. exists (s, p). split; [done|].
      by apply elem_of_map_to_list.
Qed.

End views.

(** * Worked examples for the further properties *)

(** X3, witness: two amounts and one secret. *)
Lemma construct_outputs_mismatch_witness :
  ∃ msg, LedgerAPI._construct_outputs (H := honest) [1; 2] ["a"] demo_wallet
         = (demo_wallet, Raise (AssertionError msg)).
Proof.
  apply (construct_outputs_mismatch (H := honest) [1; 2] ["a"] demo_wallet).
  simpl. lia.
Defined.

(** X4, witness: two amounts and two secrets. *)
Lemma construct_outputs_positional_witness :
  ∃ payloads rs,
    (LedgerAPI._construct_outputs (H := honest) [1; 2] ["a"; "b"]
       demo_wallet).2 = Ok (payloads, rs)
    ∧ map bm_amount payloads = [1; 2].
Proof.
  destruct (construct_outputs_positional (H := honest) [1; 2] ["a"; "b"]
              demo_wallet) as (payloads & rs & Hrun & Hamt & _).
  - reflexivity.
  - exists payloads, rs. by rewrite Hrun.
Defined.

(** X5, witness: one signature of amount [4] on the demo keyset. *)
Lemma construct_proofs_positional_witness :
  ∃ refs (w' : @World honest),
    LedgerAPI._construct_proofs (H := honest) [mkBlindedSignature 4 "C4"]
      ["a"] [0%nat] demo_wallet = (w', Ok refs)
    ∧ length refs = 1%nat.
Proof.
  destruct (construct_proofs_positional (H := honest)
              [mkBlindedSignature 4 "C4"] ["a"] [0%nat] demo_wallet)
    as (refs & w' & Hrun & _ & Hlen & _).
  - vm_compute. repeat constructor; eexists; reflexivity.
  - exists refs, w'. split; [exact Hrun|]. rewrite Hlen. reflexivity.
Defined.


(** X7, witness: the store of the reuse wallet knows [tok0]. *)
Lemma check_used_secrets_outcome_witness :
  ∃ before s after,
    ["fresh"; "tok0"; "s8"] = before ++ s :: after
    ∧ crud.secret_used s (self_db reuse_wallet) = true.
Proof.
  destruct (check_used_secrets_outcome (H := honest)
              ["fresh"; "tok0"; "s8"] reuse_wallet) as (_ & _ & Hraise).
  destruct (Hraise (Exception "secret already used: tok0"))
    as (before & s & after & Heq & _ & Hused & _).
  - vm_compute. reflexivity.
  - by exists before, s, after.
Defined.

(** X8, witness: an unmarked base expanded three times. *)
Lemma generate_secrets_plain_distinct_witness :
  ∃ l, LedgerAPI.generate_secrets (H := honest) "abc" 3 demo_wallet
       = (demo_wallet, Ok l)
       ∧ NoDup l.
Proof.
  destruct (generate_secrets_plain_distinct (H := honest) "abc" 3 demo_wallet)
    as [Hplain _].
  destruct Hplain as (l & Hrun & _ & Hnd).
  - vm_compute. discriminate.
  - by exists l.
Defined.

(** X9, witness: minting [1; 4] on the honest mint. *)
Lemma ledger_mint_ok_witness :
  ∃ refs (w' : @World honest),
    LedgerAPI.mint (H := honest) [1; 4] None demo_wallet = (w', Ok refs)
    ∧ amounts_of w' refs = [1; 4]
    ∧ secrets_of w' refs = ["tok0"; "tok1"].
Proof.
  destruct (ledger_mint_ok (H := honest) [1; 4] None demo_wallet
              [mkBlindedSignature 1 "C_B_tok0";
               mkBlindedSignature 4 "C_B_tok1"])
    as (refs & w' & Hrun & Ha & Hs & _).
  - vm_compute. repeat constructor.
  - vm_compute. reflexivity.
  - reflexivity.
  - vm_compute. repeat constructor; eexists; reflexivity.
  - exists refs, w'. split; [exact Hrun|]. split; [exact Ha|].
    rewrite Hs. vm_compute. reflexivity.
Defined.




(** X14, witness: minting [5] on the wallet holding [8; 4; 1]. *)
Lemma wallet_mint_accounting_witness :
  Wallet.balance (Wallet.mint (H := honest) 5 None demo_wallet).1 = 18.
Proof.
  set (run := Wallet.mint (H := honest) 5 None demo_wallet).
  destruct (wallet_mint_accounting (H := honest) 5 None demo_wallet
              run.1 [3; 4]%nat) as (_ & _ & _ & Hbal).
  - vm_compute. reflexivity.
  - vm_compute. repeat constructor.
  - rewrite Hbal; [|lia|vm_compute; reflexivity].
    vm_compute. reflexivity.
Defined.

(** X15, witness: the split of [8; 4; 1] at [5] keeps the balance. *)
Lemma wallet_split_accounting_witness :
  Wallet.balance
    (Wallet.split (H := honest) [0; 1; 2]%nat 5 None demo_wallet).1
  = Wallet.balance demo_wallet.
Proof.
  set (run := Wallet.split (H := honest) [0; 1; 2]%nat 5 None demo_wallet).
  destruct (wallet_split_accounting (H := honest) [0; 1; 2]%nat 5 None
              demo_wallet run.1 [3%nat] [4; 5]%nat) as (_ & Hbal).
  - vm_compute. reflexivity.
  - vm_compute. repeat constructor.
  - compute_done.
  - compute_done.
  - compute_done.
  - apply Hbal. vm_compute. reflexivity.
Defined.

(** X16, witness: after the split of [8; 4; 1] at [5] the secret [s4] is
    spent. *)
Lemma wallet_split_spends_inputs_witness :
  crud.secret_used "s4"
    (self_db (Wallet.split (H := honest) [0; 1; 2]%nat 5 None demo_wallet).1)
  = true.
Proof.
  set (run := Wallet.split (H := honest) [0; 1; 2]%nat 5 None demo_wallet).
  assert (Hrun : run = (run.1, Ok ([3%nat], [4; 5]%nat)))
    by (vm_compute; reflexivity).
  destruct (wallet_split_spends_inputs (H := honest) [0; 1; 2]%nat 5 None
              demo_wallet run.1 [3%nat] [4; 5]%nat Hrun 1%nat)
    as [_ Hused].
  - compute_done.
  - exact Hused.
Defined.


(** X19, witness: reserving the proof of [8] leaves [5] available out of
    a balance of [13]. *)
Lemma set_reserved_balances_witness :
  ∃ w' : @World honest,
    Wallet.set_reserved (H := honest) [0%nat] true demo_wallet = (w', Ok tt)
    ∧ Wallet.balance w' = 13
    ∧ Wallet.available_balance w' = 5.
Proof.
  destruct (set_reserved_balances (H := honest) [0%nat] true demo_wallet)
    as (w' & Hrun & _ & Hbal & Havail).
  - vm_compute. repeat constructor.
  - exists w'. split; [exact Hrun|]. split.
    + rewrite Hbal. vm_compute. reflexivity.
    + rewrite Havail. vm_compute. reflexivity.
Defined.

(** X22, witness: redeeming [8; 4; 1] under an unlock script gives a send
    pile of [1; 4; 8]. *)
Lemma redeem_receives_witness :
  ∃ (w' : @World honest) send,
    Wallet.redeem (H := honest) [0; 1; 2]%nat (Some "script") (Some "sig")
      demo_wallet = (w', Ok ([], send))
    ∧ amounts_of w' send = [1; 4; 8].
Proof.
  destruct (redeem_receives (H := honest) [0; 1; 2]%nat (Some "script")
              (Some "sig") demo_wallet []
              [mkBlindedSignature 1 "C_B_tok0";
               mkBlindedSignature 4 "C_B_tok1";
               mkBlindedSignature 8 "C_B_tok2"])
    as (w' & send & Hrun & Ha & _).
  - vm_compute. reflexivity.
  - vm_compute. reflexivity.
  - vm_compute. reflexivity.
  - vm_compute. split; reflexivity.
  - vm_compute. repeat constructor; eexists; reflexivity.
  - exists w', send. split; [exact Hrun|]. rewrite Ha.
    vm_compute. reflexivity.
Defined.

(** X23, witness: sending [5] out of [8; 4; 1] posts one request, with
    the three unreserved proofs. *)
Lemma split_to_send_unreserved_witness :
  ∃ events,
    trace (Wallet.split_to_send (H := honest) [0; 1; 2]%nat 5 None
             demo_wallet).1 = events
    ∧ ∀ ps a o, POST_split ps a o ∈ events →
                Forall (λ q, reserved q = false) ps.
Proof.
  set (run := Wallet.split_to_send (H := honest) [0; 1; 2]%nat 5 None
                demo_wallet).
  destruct (split_to_send_unreserved (H := honest) [0; 1; 2]%nat 5 None
              demo_wallet run.1 run.2) as (events & Htr & Hev).
  - vm_compute. reflexivity.
  - exists events. split; [exact Htr|].
    intros ps a o Hin. by destruct (Hev ps a o Hin).
Defined.

(** X24, witness: the lagging mint reports both melted proofs as still
    spendable. *)
Lemma invalidate_all_spendable_witness :
  ∃ w' : @World lagging,
    Wallet.invalidate (H := lagging) [0; 2]%nat lagging_wallet = (w', Ok tt)
    ∧ self_proofs w' = [0; 1; 2]%nat.
Proof.
  destruct (invalidate_all_spendable (H := lagging) [0; 2]%nat
              [(0, true); (1, true)] lagging_wallet)
    as (w' & Hrun & Hmem & _).
  - vm_compute. reflexivity.
  - repeat constructor.
  - exists w'. split; [exact Hrun|]. rewrite Hmem. reflexivity.
Defined.

(** X25, witness: the answer names the index [7] of a list of two; the
    proof of [8] is gone from the store and still in [self.proofs]. *)
Lemma invalidate_index_error_witness :
  ∃ w' : @World confused,
    Wallet.invalidate (H := confused) [0; 2]%nat confused_wallet
    = (w', Raise IndexError)
    ∧ self_proofs w' = [0; 1; 2]%nat
    ∧ crud.live (self_db w') !! "s8" = None.
Proof.
  destruct (invalidate_index_error (H := confused) [0; 2]%nat
              [(0, false)] [] 7 [0%nat] confused_wallet)
    as (w' & Hrun & Hmem & _ & Hgone & _).
  - vm_compute. reflexivity.
  - vm_compute. reflexivity.
  - right. simpl. lia.
  - exists w'. split; [exact Hrun|]. split.
    + rewrite Hmem. reflexivity.
    + apply (Hgone 0%nat). constructor.
Defined.

(** X26, witness: the invoice is paid and the check is not answered. *)
Lemma pay_lightning_paid_unreconciled_witness :
  ∃ e, (Wallet.pay_lightning (H := unreachable) [0; 2]%nat "lnbc"
          unreachable_wallet).2 = Raise e.
Proof.
  destruct (pay_lightning_paid_unreconciled (H := unreachable) [0; 2]%nat
              "lnbc" unreachable_wallet (mkMeltJson true))
    as (e & Hrun & _).
  - vm_compute. reflexivity.
  - reflexivity.
  - intros items. vm_compute. discriminate.
  - exists e. by rewrite Hrun.
Defined.

(** X27, witness: paying with the proofs of [8] and [1] leaves [4]. *)
Lemma pay_lightning_balance_witness :
  ∃ w' : @World honest,
    Wallet.pay_lightning (H := honest) [0; 2]%nat "lnbc" demo_wallet
    = (w', Ok true)
    ∧ Wallet.balance w' = 4.
Proof.
  destruct (pay_lightning_balance (H := honest) [0; 2]%nat [0; 2]%nat "lnbc"
              demo_wallet (mkMeltJson true) [(0, false); (1, false)])
    as (w' & Hrun & Hbal).
  - vm_compute. reflexivity.
  - reflexivity.
  - vm_compute. reflexivity.
  - vm_compute. reflexivity.
  - compute_done.
  - compute_done.
  - compute_done.
  - exists w'. split; [exact Hrun|]. rewrite Hbal. vm_compute. reflexivity.
Defined.

(** X29, witness: reloading the wallet holding [8; 4; 1]. *)
Lemma load_proofs_mirrors_witness :
  ∃ w' : @World honest,
    Wallet.load_proofs (H := honest) demo_wallet = (w', Ok tt)
    ∧ NoDup (secrets_of w' (self_proofs w'))
    ∧ Forall (λ r, (3 ≤ r)%nat) (self_proofs w').
Proof.
  destruct (load_proofs_mirrors (H := honest) demo_wallet)
    as (w' & Hrun & _ & Hfresh & _ & Hnd & _).
  - compute_done.
  - by exists w'.
Defined.
